(** * sniffer: a shallow embedding of the observer pipeline

    The development follows the Go sources of the repository:
    - the types and the [Sinker] accumulator (package [sniffer]),
    - the packet decoder [PcapClient.parsePacket] and the device set-up
      [PcapClient.getAvailableDevices] (pcap_linux.go),
    - the process-socket resolver [ProcessMonitor] and the netlink socket
      diagnosis client [netlinkConn] (conn_linux.go),
    - the port fallback [StatsManager.getProcNameFallback] (stat_linux.go).

    Go maps are finite maps ([gmap]); a map that may be [nil] is an
    [option] of a finite map.  Go's [int] is a 64-bit two's complement
    integer, written as [Z] with its wrap-around. Operating-system and library
    calls (the clock, /proc, the netlink socket, gopacket, net.IP.String) are
    inputs of the functions that use them. *)

From stdpp Require Import gmap strings list fin_maps pretty.

Local Open Scope Z_scope.

(** ** Go's machine integers *)

Module GoInt.

Definition int_min : Z := - 2 ^ 63.
Definition int_max : Z := 2 ^ 63 - 1.

(** Reduction of a mathematical integer to the 64-bit signed range. *)
Definition wrap (z : Z) : Z := (z + 2 ^ 63) mod 2 ^ 64 - 2 ^ 63.

(** [a + b] on [int]. *)
Definition add (a b : Z) : Z := wrap (a + b).

Definition in_range (z : Z) : Prop := int_min <= z <= int_max.

(** Conversion to [uint16]. *)
Definition uint16 (z : Z) : Z := z mod 65536.

End GoInt.

(** ** Types of package sniffer *)

(** [type Protocol string] with its two constants. *)
Definition Protocol : Type := string.
Definition ProtoTCP : Protocol := "tcp".
Definition ProtoUDP : Protocol := "udp".

(** [type Direction uint8], [iota] constants. *)
Definition Direction : Type := Z.
Definition DirectionUpload : Direction := 0.
Definition DirectionDownload : Direction := 1.

Module RemoteSocket.
Record t : Type := mk { IP : string; Port : Z }.
Global Instance eq_dec : EqDecision t.
Proof. solve_decision. Defined.
Global Instance countable : Countable t.
Proof.
  refine (inj_countable' (λ r, (IP r, Port r)) (λ p, mk p.1 p.2) _).
  by intros [].
Defined.
End RemoteSocket.

Module LocalSocket.
Record t : Type := mk { IP : string; Port : Z; Protocol : Protocol }.
Global Instance eq_dec : EqDecision t.
Proof. solve_decision. Defined.
Global Instance countable : Countable t.
Proof.
  refine (inj_countable' (λ l, (IP l, Port l, Protocol l))
            (λ p, mk p.1.1 p.1.2 p.2) _).
  by intros [].
Defined.
(** [wildcardSocket := socket; wildcardSocket.IP = ip] *)
Definition withIP (ip : string) (l : t) : t := mk ip (Port l) (Protocol l).
End LocalSocket.

Module Connection.
Record t : Type := mk { Local : LocalSocket.t; Remote : RemoteSocket.t }.
Global Instance eq_dec : EqDecision t.
Proof. solve_decision. Defined.
Global Instance countable : Countable t.
Proof.
  refine (inj_countable' (λ c, (Local c, Remote c)) (λ p, mk p.1 p.2) _).
  by intros [].
Defined.
End Connection.

Module ProcessInfo.
Record t : Type := mk { Pid : Z; Name : string }.
Global Instance eq_dec : EqDecision t.
Proof. solve_decision. Defined.
(** The zero value of the struct. *)
Definition zero : t := mk 0 "".
(** [fmt.Sprintf("<%d>:%s", p.Pid, p.Name)] *)
Definition String (p : t) : string := "<" +:+ pretty (Pid p) +:+ ">:" +:+ Name p.
End ProcessInfo.

Module ConnectionInfo.
Record t : Type := mk {
  Interface : string;
  UploadPackets : Z;
  DownloadPackets : Z;
  UploadBytes : Z;
  DownloadBytes : Z;
  Process : option ProcessInfo.t
}.
End ConnectionInfo.

Module Segment.
Record t : Type := mk {
  Interface : string;
  DataLen : Z;
  Connection : Connection.t;
  Direction : Direction;
  Process : option ProcessInfo.t
}.
End Segment.

(** [OpenSockets map[LocalSocket]ProcessInfo] and
    [Utilization map[Connection]*ConnectionInfo].  Every pointer stored in a
    [Utilization] is allocated by [Fetch] for its key and reachable only
    through that key, so the map holds the records themselves. *)
Abbreviation OpenSockets := (gmap LocalSocket.t ProcessInfo.t).
Abbreviation Utilization := (gmap Connection.t ConnectionInfo.t).

(** ** The sink *)

Record Sinker : Type := mkSinker { utilization : Utilization }.

Definition NewSinker : Sinker := mkSinker ∅.

(** The two arms of [switch seg.Direction] in [Fetch]. *)
Definition addUpload (n : Z) (ci : ConnectionInfo.t) : ConnectionInfo.t :=
  ConnectionInfo.mk (ConnectionInfo.Interface ci)
    (GoInt.add (ConnectionInfo.UploadPackets ci) 1)
    (ConnectionInfo.DownloadPackets ci)
    (GoInt.add (ConnectionInfo.UploadBytes ci) n)
    (ConnectionInfo.DownloadBytes ci)
    (ConnectionInfo.Process ci).

Definition addDownload (n : Z) (ci : ConnectionInfo.t) : ConnectionInfo.t :=
  ConnectionInfo.mk (ConnectionInfo.Interface ci)
    (ConnectionInfo.UploadPackets ci)
    (GoInt.add (ConnectionInfo.DownloadPackets ci) 1)
    (ConnectionInfo.UploadBytes ci)
    (GoInt.add (ConnectionInfo.DownloadBytes ci) n)
    (ConnectionInfo.Process ci).

Definition Fetch (seg : Segment.t) (c : Sinker) : Sinker :=
  let key := Segment.Connection seg in
  let u :=
    match utilization c !! key with
    | Some _ => utilization c
    | None =>
        <[key := ConnectionInfo.mk (Segment.Interface seg) 0 0 0 0
                   (Segment.Process seg)]> (utilization c)
    end in
  if decide (Segment.Direction seg = DirectionUpload) then
    mkSinker (alter (addUpload (Segment.DataLen seg)) key u)
  else if decide (Segment.Direction seg = DirectionDownload) then
    mkSinker (alter (addDownload (Segment.DataLen seg)) key u)
  else mkSinker u.

(** The effect of [switch seg.Direction] on the entry, used to state what
    [Fetch] leaves under a key. *)
Definition bump (seg : Segment.t) (ci : ConnectionInfo.t) : ConnectionInfo.t :=
  if decide (Segment.Direction seg = DirectionUpload)
  then addUpload (Segment.DataLen seg) ci
  else if decide (Segment.Direction seg = DirectionDownload)
  then addDownload (Segment.DataLen seg) ci
  else ci.

(** [GetUtilization] hands out the current map and installs a fresh one. *)
Definition GetUtilization (c : Sinker) : Utilization * Sinker :=
  (utilization c, mkSinker ∅).

(** The producer side between two drains: segments fetched in order. *)
Definition fetchAll (segs : list Segment.t) (c : Sinker) : Sinker :=
  foldl (λ acc seg, Fetch seg acc) c segs.

(** The quantities the sink is specified by: per connection and direction,
    the mathematical sum of [DataLen] and the number of segments. *)
Definition segsOf (conn : Connection.t) (dir : Direction)
    (segs : list Segment.t) : list Segment.t :=
  filter (λ s, Segment.Connection s = conn ∧ Segment.Direction s = dir) segs.

Definition sumDataLen (segs : list Segment.t) : Z :=
  foldr (λ s acc, Segment.DataLen s + acc) 0 segs.

Definition bytesOf (conn : Connection.t) (dir : Direction)
    (segs : list Segment.t) : Z :=
  sumDataLen (segsOf conn dir segs).

Definition packetsOf (conn : Connection.t) (dir : Direction)
    (segs : list Segment.t) : Z :=
  Z.of_nat (length (segsOf conn dir segs)).

(** The first segment of a window that carries a given connection. *)
Definition firstOf (conn : Connection.t) (segs : list Segment.t)
    : option Segment.t :=
  head (filter (λ s, Segment.Connection s = conn) segs).

(** The entry a window leaves for a connection: interface and process of
    its first segment, counters reduced to [int]. *)
Definition windowEntry (conn : Connection.t) (segs : list Segment.t)
    : option ConnectionInfo.t :=
  match firstOf conn segs with
  | None => None
  | Some s0 =>
      Some (ConnectionInfo.mk (Segment.Interface s0)
              (GoInt.wrap (packetsOf conn DirectionUpload segs))
              (GoInt.wrap (packetsOf conn DirectionDownload segs))
              (GoInt.wrap (bytesOf conn DirectionUpload segs))
              (GoInt.wrap (bytesOf conn DirectionDownload segs))
              (Segment.Process s0))
  end.

(** A window whose totals fit Go's [int]: no counter wraps around. *)
Definition windowFits (segs : list Segment.t) : Prop :=
  Forall (λ s, 0 <= Segment.DataLen s) segs ∧
  sumDataLen segs <= GoInt.int_max ∧
  Z.of_nat (length segs) <= GoInt.int_max.

(** ** Results of Go functions

    A call returns normally ([Ok]), returns a non-nil [error] together with
    whatever value accompanies it ([Err]), or panics ([Panic]). *)
Inductive result (A E : Type) : Type :=
| Ok (a : A)
| Err (partial : E)
| Panic.
Arguments Ok {A E} a.
Arguments Err {A E} partial.
Arguments Panic {A E}.

(** ** Time (package time)

    A [time.Time] is a reading of the monotonic clock in nanoseconds; a
    [time.Duration] is an [int64] count of nanoseconds, and [Time.Sub]
    saturates at the ends of that range. *)
Definition Time : Type := Z.
Definition Second : Z := 1000000000.

Definition Sub (t u : Time) : Z :=
  if decide (t - u < GoInt.int_min) then GoInt.int_min
  else if decide (GoInt.int_max < t - u) then GoInt.int_max
  else t - u.

(** [cacheTimeout := 5 * time.Second] *)
Definition cacheTimeout : Z := 5 * Second.

(** ** Socket diagnosis records (conn_linux.go) *)

Definition byteZ (b : Byte.byte) : Z := Z.of_N (Byte.to_N b).

Record be16 : Type := mkBe16 { at0 : Byte.byte; at1 : Byte.byte }.
Record be32 : Type := mkBe32 { q0 : Byte.byte; q1 : Byte.byte; q2 : Byte.byte; q3 : Byte.byte }.

Record inetDiagSockID : Type := mkSockID {
  IdiagSport : be16;
  IdiagDport : be16;
  IdiagSrc : be32 * be32 * be32 * be32;
  IdiagDst : be32 * be32 * be32 * be32;
  IdiagIF : Z;
  IdiagCookie : Z * Z
}.

Record inetDiagMsg : Type := mkDiagMsg {
  IDiagFamily : Z;
  IDiagState : Z;
  IDiagTimer : Z;
  IDiagRetrans : Z;
  ID : inetDiagSockID;
  IDiagExpires : Z;
  IDiagRqueue : Z;
  IDiagWqueue : Z;
  IDiagUid : Z;
  IDiagInode : Z
}.

(** A parsed netlink message: the header type and the [inetDiagMsg] the
    pointer cast reads out of [msg.Data]. *)
Record NetlinkMessage : Type := mkNlMsg { HeaderType : Z; Diag : inetDiagMsg }.

Definition NLMSG_DONE : Z := 3.
Definition AF_INET : Z := 2.
Definition AF_INET6 : Z := 10.
Definition IPPROTO_TCP : Z := 6.
Definition IPPROTO_UDP : Z := 17.
Definition tcpEstablished : Z := 1.
Definition udpConnection : Z := 7.

(** What one [unix.Recvmsg] on the diagnosis socket yields: an error (the
    200 ms receive timeout included), zero bytes, bytes that
    [ParseNetlinkMessage] rejects, or a batch of messages.  Each message
    comes with the reading [time.Now()] gives while it is processed. *)
Inductive RecvEvent : Type :=
| RecvError
| RecvZero
| RecvUnparsable
| RecvMsgs (msgs : list (NetlinkMessage * Time)).

Record processCache : Type := mkProcessCache {
  info : ProcessInfo.t;
  timestamp : Time
}.

(** [netlinkConn]: both caches are Go maps and may be [nil] ([None]). *)
Record netlinkConn : Type := mkNetlinkConn {
  inodeCache : option (gmap Z processCache);
  portCache : option (gmap Z processCache)
}.

(** [GetSocketFetcher] allocates both caches. *)
Definition GetSocketFetcher : netlinkConn := mkNetlinkConn (Some ∅) (Some ∅).

(** Reading a Go map that may be nil: a nil map reads as empty. *)
Definition goGet {K V} `{Countable K} (m : option (gmap K V)) (k : K) : option V :=
  match m with
  | Some g => g !! k
  | None => None
  end.

(** One successful [getProcInodes] scan as sent on [resultChan]. *)
Record scanResult : Type := mkScanResult {
  procInfo : ProcessInfo.t;
  inodes : list Z
}.

(** [type Req struct { Protocol int; Family uint8; State uint32 }] *)
Record Req : Type := mkReq { ReqProtocol : Z; ReqFamily : Z; ReqState : Z }.

(** The operating system as one refresh sees it: the outcome of [listPids]
    ([None] on error) as the listed PIDs, each with what [getProcInodes]
    returns for it (name and socket inodes, [None] on error), in the order
    in which the workers finish; the reading of [time.Now()] at the start
    of [getAllProcsInodes]; whether /proc/net/if_inet6 exists; and per
    request either a failed [sockdiagSend] ([None]) or the datagrams the
    kernel answers with. *)
Record ProcEnv : Type := mkProcEnv {
  envProcs : option (list (Z * option (string * list Z)));
  envNow : Time;
  envIPv6 : bool;
  envDiag : Req → option (list RecvEvent)
}.

(** ** The DNS resolver *)

(** Modelled from the spec: [DNSResolver.Lookup], whose source (the DNS
    resolver cache) is not part of the repository files at hand.  The
    specification gives [lookup(ip) → string], returning the input on a
    miss; the resolver is a table from addresses to names. *)
Record DNSResolver : Type := mkDNSResolver { hostnames : gmap string string }.

Definition DNSResolver_Lookup (r : DNSResolver) (ip : string) : string :=
  default ip (hostnames r !! ip).

Section Host.

(** [net.IP.String] of Go's standard library. *)
Variable IP_String : list Byte.byte → string.
(** Whether [getNativeEndian()] is [binary.BigEndian] on this host. *)
Variable hostBigEndian : bool.
(** The constant [unknownProcessName]; its declaration (stat.go) is not
    among the sources. *)
Variable unknownProcessName : string.

(** [be16.Swap]: swaps a 16 bit value if the host is not big endian. *)
Definition be16_Swap (i : Z) : Z :=
  if hostBigEndian then i
  else GoInt.uint16
         (Z.lor (Z.shiftr (Z.land i 0xff00) 8) (Z.shiftl (Z.land i 0xff) 8)).

(** [be16.Int]: the two bytes read as a host-order [uint16], then swapped. *)
Definition be16_Int (v : be16) : Z :=
  let v2 :=
    if hostBigEndian then byteZ (at0 v) * 256 + byteZ (at1 v)
    else byteZ (at0 v) + byteZ (at1 v) * 256 in
  be16_Swap v2.

(** [net.IPv4(a, b, c, d)]: the 16-byte form with the v4-in-v6 prefix. *)
Definition net_IPv4 (a b c d : Byte.byte) : list Byte.byte :=
  replicate 10 Byte.x00 ++ [Byte.xff; Byte.xff; a; b; c; d].

Definition be32_bytes (b : be32) : list Byte.byte := [q0 b; q1 b; q2 b; q3 b].

Definition ipv4 (b : be32) : string :=
  IP_String (net_IPv4 (q0 b) (q1 b) (q2 b) (q3 b)).

Definition ipv6 (b : be32 * be32 * be32 * be32) : string :=
  let '(w0, w1, w2, w3) := b in
  IP_String (be32_bytes w0 ++ be32_bytes w1 ++ be32_bytes w2 ++ be32_bytes w3).

(** [ipHex2String]: the string and whether an error is returned. *)
Definition ipHex2String (family : Z) (ip : be32 * be32 * be32 * be32)
    : string * bool :=
  if decide (family = AF_INET) then (ipv4 ip.1.1.1, false)
  else if decide (family = AF_INET6) then (ipv6 ip, false)
  else ("", true).

(** The protocol [sockdiagRecv] derives from its [proto] argument. *)
Definition protoOf (proto : Z) : Protocol :=
  if decide (proto = IPPROTO_TCP) then ProtoTCP
  else if decide (proto = IPPROTO_UDP) then ProtoUDP
  else "".

(** The key under which [sockdiagRecv] files a record. *)
Definition recordSocket (proto : Z) (m : inetDiagMsg) : LocalSocket.t :=
  LocalSocket.mk (ipHex2String (IDiagFamily m) (IdiagSrc (ID m))).1
    (GoInt.uint16 (be16_Int (IdiagSport (ID m)))) (protoOf proto).

(** [procInfo := inodeMap[m.IDiagInode]]: the zero value on a miss. *)
Definition recordProc (inodeMap : gmap Z ProcessInfo.t) (m : inetDiagMsg)
    : ProcessInfo.t :=
  default ProcessInfo.zero (inodeMap !! IDiagInode m).

(** The guard of the port cache write. *)
Definition cacheable (p : ProcessInfo.t) : bool :=
  bool_decide (ProcessInfo.Name p ≠ "") &&
  bool_decide (ProcessInfo.Name p ≠ unknownProcessName).

(** The body of [for _, msg := range msgs] for a message that is not
    [NLMSG_DONE]: the socket is filed, then the port cache is written when
    the name is usable.  Writing to a nil map panics. *)
Definition recvRecord (proto : Z) (inodeMap : gmap Z ProcessInfo.t)
    (m : inetDiagMsg) (now : Time) (sockets : OpenSockets) (nl : netlinkConn)
    : option (OpenSockets * netlinkConn) :=
  let p := recordProc inodeMap m in
  let sockets' := <[recordSocket proto m := p]> sockets in
  if cacheable p then
    match portCache nl with
    | None => None
    | Some pc =>
        Some (sockets',
              mkNetlinkConn (inodeCache nl)
                (Some (<[LocalSocket.Port (recordSocket proto m) :=
                           mkProcessCache p now]> pc)))
    end
  else Some (sockets', nl).

(** How the inner loop over one batch ends. *)
Inductive batchEnd : Type := BatchDone | BatchMore | BatchPanic.

Fixpoint recvBatch (proto : Z) (inodeMap : gmap Z ProcessInfo.t)
    (msgs : list (NetlinkMessage * Time)) (sockets : OpenSockets)
    (nl : netlinkConn) : batchEnd * OpenSockets * netlinkConn :=
  match msgs with
  | [] => (BatchMore, sockets, nl)
  | (msg, now) :: rest =>
      if decide (HeaderType msg = NLMSG_DONE) then (BatchDone, sockets, nl)
      else
        match recvRecord proto inodeMap (Diag msg) now sockets nl with
        | None => (BatchPanic, sockets, nl)
        | Some (sockets', nl') => recvBatch proto inodeMap rest sockets' nl'
        end
  end.

(** [sockdiagRecv], started on the map [sockets] (empty in the source).
    When the kernel sends nothing further, [Recvmsg] fails after the receive
    timeout, which is the case of an exhausted event list. *)
Fixpoint sockdiagRecvFrom (proto : Z) (inodeMap : gmap Z ProcessInfo.t)
    (events : list RecvEvent) (sockets : OpenSockets) (nl : netlinkConn)
    : result OpenSockets OpenSockets * netlinkConn :=
  match events with
  | [] => (Err sockets, nl)
  | RecvError :: _ => (Err sockets, nl)
  | RecvZero :: _ => (Ok sockets, nl)
  | RecvUnparsable :: _ => (Err sockets, nl)
  | RecvMsgs msgs :: rest =>
      match recvBatch proto inodeMap msgs sockets nl with
      | (BatchDone, sockets', nl') => (Ok sockets', nl')
      | (BatchPanic, _, nl') => (Panic, nl')
      | (BatchMore, sockets', nl') =>
          sockdiagRecvFrom proto inodeMap rest sockets' nl'
      end
  end.

Definition sockdiagRecv (proto : Z) (inodeMap : gmap Z ProcessInfo.t)
    (events : list RecvEvent) (nl : netlinkConn)
    : result OpenSockets OpenSockets * netlinkConn :=
  sockdiagRecvFrom proto inodeMap events ∅ nl.

(** The requests of [getOpenSockets]; the IPv6 pair is appended when
    /proc/net/if_inet6 exists. *)
Definition diagReqs (hasIPv6 : bool) : list Req :=
  [mkReq IPPROTO_TCP AF_INET (Z.lor 1 (Z.shiftl 1 tcpEstablished));
   mkReq IPPROTO_UDP AF_INET (Z.shiftl 1 udpConnection)] ++
  (if hasIPv6 then
     [mkReq IPPROTO_TCP AF_INET6 (Z.lor 1 (Z.shiftl 1 tcpEstablished));
      mkReq IPPROTO_UDP AF_INET6 (Z.shiftl 1 udpConnection)]
   else []).

(** First loop of [getOpenSockets]: every request is sent before anything
    is received; the first failing [sockdiagSend] aborts with [nil, err].
    An open descriptor is represented by its protocol and the datagrams
    that will arrive on it. *)
Fixpoint sendAll (diag : Req → option (list RecvEvent)) (reqs : list Req)
    : option (list (Z * list RecvEvent)) :=
  match reqs with
  | [] => Some []
  | req :: rest =>
      match diag req with
      | None => None
      | Some events =>
          match sendAll diag rest with
          | None => None
          | Some fds => Some ((ReqProtocol req, events) :: fds)
          end
      end
  end.

(** Second loop: each descriptor is drained with [sockdiagRecv] and its map
    is copied over [sockets]; an error returns the map merged so far. *)
Fixpoint recvAll (inodeMap : gmap Z ProcessInfo.t)
    (fds : list (Z * list RecvEvent)) (sockets : OpenSockets)
    (nl : netlinkConn)
    : result OpenSockets (option OpenSockets) * netlinkConn :=
  match fds with
  | [] => (Ok sockets, nl)
  | (proto, events) :: rest =>
      match sockdiagRecv proto inodeMap events nl with
      | (Ok m, nl') => recvAll inodeMap rest (m ∪ sockets) nl'
      | (Err _, nl') => (Err (Some sockets), nl')
      | (Panic, nl') => (Panic, nl')
      end
  end.

Definition getOpenSockets (env : ProcEnv) (inodeMap : gmap Z ProcessInfo.t)
    (nl : netlinkConn)
    : result OpenSockets (option OpenSockets) * netlinkConn :=
  match sendAll (envDiag env) (diagReqs (envIPv6 env)) with
  | None => (Err None, nl)
  | Some fds => recvAll inodeMap fds ∅ nl
  end.

(** First step of [getAllProcsInodes]: cached entries that are still valid. *)
Definition cachedInodes (now : Time) (cache : option (gmap Z processCache))
    : gmap Z ProcessInfo.t :=
  match cache with
  | None => ∅
  | Some g =>
      info <$> filter (λ kv, Sub now (timestamp kv.2) < cacheTimeout) g
  end.

(** [for _, inode := range res.inodes]: the map entry, then the cache
    entry; the cache write panics on a nil map. *)
Fixpoint collectInodes (now : Time) (p : ProcessInfo.t) (inodes : list Z)
    (m : gmap Z ProcessInfo.t) (nl : netlinkConn)
    : option (gmap Z ProcessInfo.t * netlinkConn) :=
  match inodes with
  | [] => Some (m, nl)
  | inode :: rest =>
      match inodeCache nl with
      | None => None
      | Some g =>
          collectInodes now p rest (<[inode := p]> m)
            (mkNetlinkConn (Some (<[inode := mkProcessCache p now]> g))
               (portCache nl))
      end
  end.

(** [for res := range resultChan] *)
Fixpoint collectResults (now : Time) (results : list scanResult)
    (m : gmap Z ProcessInfo.t) (nl : netlinkConn)
    : option (gmap Z ProcessInfo.t * netlinkConn) :=
  match results with
  | [] => Some (m, nl)
  | res :: rest =>
      match collectInodes now (procInfo res) (inodes res) m nl with
      | None => None
      | Some (m', nl') => collectResults now rest m' nl'
      end
  end.

(** Clean-up of old cache entries ([delete] on a nil map does nothing). *)
Definition sweepInodes (now : Time) (nl : netlinkConn) : netlinkConn :=
  mkNetlinkConn
    (filter (λ kv, ¬ cacheTimeout <= Sub now (timestamp kv.2)) <$> inodeCache nl)
    (portCache nl).

(** [getAllProcsInodes]; [None] is a panic. *)
Definition getAllProcsInodes (now : Time) (results : list scanResult)
    (nl : netlinkConn) : option (gmap Z ProcessInfo.t) * netlinkConn :=
  match collectResults now results (cachedInodes now (inodeCache nl)) nl with
  | None => (None, nl)
  | Some (m, nl') => (Some m, sweepInodes now nl')
  end.

(** What the workers send on [resultChan]: one result per PID whose scan
    succeeded, with [ProcessInfo{Name: procName, Pid: int(pid)}]. *)
Definition scanResults (procs : list (Z * option (string * list Z)))
    : list scanResult :=
  omap (λ proc,
          match proc.2 with
          | Some (name, inodes) =>
              Some (mkScanResult (ProcessInfo.mk proc.1 name) inodes)
          | None => None
          end) procs.

(** [netlinkConn.GetOpenSockets]: one refresh of the socket fetcher. *)
Definition GetOpenSockets (env : ProcEnv) (nl : netlinkConn)
    : result OpenSockets (option OpenSockets) * netlinkConn :=
  match envProcs env with
  | None => (Err None, nl)
  | Some procs =>
      match getAllProcsInodes (envNow env) (scanResults procs) nl with
      | (None, nl') => (Panic, nl')
      | (Some inodeMap, nl') => getOpenSockets env inodeMap nl'
      end
  end.

(** ** The process monitor *)

Record ProcessMonitor : Type := mkProcessMonitor {
  socketMap : OpenSockets;
  refreshInterval : Z;
  nlConn : netlinkConn
}.

(** [NewProcessMonitor]: [nlConn: &netlinkConn{}] leaves both caches nil. *)
Definition NewProcessMonitor (interval : Z) : ProcessMonitor :=
  mkProcessMonitor ∅ interval (mkNetlinkConn None None).

Definition RefreshProcesses (env : ProcEnv) (pm : ProcessMonitor)
    : result unit unit * ProcessMonitor :=
  match envProcs env with
  | None => (Err (), pm)
  | Some procs =>
      match getAllProcsInodes (envNow env) (scanResults procs) (nlConn pm) with
      | (None, nl') =>
          (Panic, mkProcessMonitor (socketMap pm) (refreshInterval pm) nl')
      | (Some inodeMap, nl') =>
          match getOpenSockets env inodeMap nl' with
          | (Ok openSockets, nl'') =>
              (Ok (), mkProcessMonitor openSockets (refreshInterval pm) nl'')
          | (Err _, nl'') =>
              (Err (), mkProcessMonitor (socketMap pm) (refreshInterval pm) nl'')
          | (Panic, nl'') =>
              (Panic, mkProcessMonitor (socketMap pm) (refreshInterval pm) nl'')
          end
      end
  end.

Definition GetProcess (pm : ProcessMonitor) (socket : LocalSocket.t)
    : option ProcessInfo.t :=
  match socketMap pm !! socket with
  | Some proc => Some proc
  | None =>
      match socketMap pm !! LocalSocket.withIP "*" socket with
      | Some proc => Some proc
      | None =>
          match socketMap pm !! LocalSocket.withIP "0.0.0.0" socket with
          | Some proc => Some proc
          | None =>
              match socketMap pm !! LocalSocket.withIP "::" socket with
              | Some proc => Some proc
              | None => None
              end
          end
      end
  end.

(** The ladder as the specification words it: the candidates in order, the
    first hit wins. *)
Definition ladder (socket : LocalSocket.t) : list LocalSocket.t :=
  [socket; LocalSocket.withIP "*" socket;
   LocalSocket.withIP "0.0.0.0" socket; LocalSocket.withIP "::" socket].

Definition firstHit (m : OpenSockets) (keys : list LocalSocket.t)
    : option ProcessInfo.t :=
  head (omap (λ k, m !! k) keys).

(** ** The port fallback of the stats manager (stat_linux.go) *)

(** A [SocketFetcher] interface value: a [*netlinkConn] (possibly a nil
    pointer) or a value of some other type. *)
Inductive SocketFetcher : Type :=
| FetcherNetlink (nl : option netlinkConn)
| FetcherOther.

(** [Stat] with the fields its callers set; a nil interface is [None]. *)
Record Stat : Type := mkStat {
  StatOpenSockets : OpenSockets;
  StatUtilization : Utilization;
  StatSocketFetcher : option SocketFetcher
}.

Record StatsManager : Type := mkStatsManager { stat : Stat }.

(** [getProcNameFallback]; [now] is the clock read by [time.Since]. *)
Definition getProcNameFallback (now : Time) (s : StatsManager)
    (localSocket : LocalSocket.t) : string :=
  match StatSocketFetcher (stat s) with
  | None => ""
  | Some (FetcherNetlink (Some fetcher)) =>
      match goGet (portCache fetcher) (LocalSocket.Port localSocket) with
      | Some cached =>
          if decide (Sub now (timestamp cached) < 5 * Second)
          then ProcessInfo.String (info cached)
          else ""
      | None => ""
      end
  | Some _ => ""
  end.

(** ** The packet decoder (pcap_linux.go) *)

(** The decoded layers [parsePacket] switches on; the ports are [uint16]
    values already, [Contents] is the header and [Payload] what follows. *)
Inductive Layer : Type :=
| LayerIPv4 (SrcIP DstIP : list Byte.byte)
| LayerIPv6 (SrcIP DstIP : list Byte.byte)
| LayerTCP (SrcPort DstPort : Z) (Contents Payload : list Byte.byte)
| LayerUDP (SrcPort DstPort : Z) (Contents Payload : list Byte.byte)
| LayerOther.

(** [len] of a byte slice. *)
Definition len (b : list Byte.byte) : Z := Z.of_nat (length b).

Record pcapHandler : Type := mkPcapHandler { device : string; handle : Z }.

Record PcapClient : Type := mkPcapClient {
  bindIPs : gmap string bool;
  handlers : list pcapHandler;
  bpfFilter : string;
  ClientSinker : Sinker;
  devicesPrefix : list string;
  disableDNSResolve : bool;
  allDevices : bool;
  lookup : string → string;
  processMonitor : option ProcessMonitor
}.

(** [c.bindIPs[ip]]: [false] for an absent key. *)
Definition bound (c : PcapClient) (ip : string) : bool :=
  default false (bindIPs c !! ip).

(** The local variables of [parsePacket]. *)
Record parseVars : Type := mkParseVars {
  srcPort : Z;
  dstPort : Z;
  srcIP : string;
  dstIP : string;
  protocol : Protocol;
  dataLen : Z;
  direction : Direction
}.

Definition parseInit : parseVars :=
  mkParseVars 0 0 "" "" "" 0 DirectionDownload.

(** One iteration of [for _, layerType := range decoded]. *)
Definition parseLayer (c : PcapClient) (v : parseVars) (l : Layer) : parseVars :=
  match l with
  | LayerIPv4 src dst | LayerIPv6 src dst =>
      mkParseVars (srcPort v) (dstPort v) (IP_String src) (IP_String dst)
        (protocol v) (dataLen v)
        (if bound c (IP_String src) then DirectionUpload else direction v)
  | LayerTCP sp dp contents payload =>
      mkParseVars sp dp (srcIP v) (dstIP v) ProtoTCP
        (len contents + len payload) (direction v)
  | LayerUDP sp dp contents payload =>
      mkParseVars sp dp (srcIP v) (dstIP v) ProtoUDP
        (len contents + len payload) (direction v)
  | LayerOther => v
  end.

(** The remote address after the DNS step of either [switch] arm. *)
Definition remoteOf (c : PcapClient) (proto : Protocol) (ip : string) : string :=
  if bool_decide (proto = ProtoTCP) && negb (disableDNSResolve c)
  then lookup c ip else ip.

(** [if c.processMonitor != nil { seg.Process = ...GetProcess(local) }] *)
Definition processOf (c : PcapClient) (local : LocalSocket.t)
    : option ProcessInfo.t :=
  match processMonitor c with
  | Some pm => GetProcess pm local
  | None => None
  end.

Definition zeroConnection : Connection.t :=
  Connection.mk (LocalSocket.mk "" 0 "") (RemoteSocket.mk "" 0).

Definition parsePacket (c : PcapClient) (ph : pcapHandler)
    (decoded : list Layer) : option Segment.t :=
  let v := foldl (parseLayer c) parseInit decoded in
  if decide (protocol v = "") then None
  else if decide (direction v = DirectionUpload) then
    let local := LocalSocket.mk (srcIP v) (srcPort v) (protocol v) in
    Some (Segment.mk (device ph) (dataLen v)
            (Connection.mk local
               (RemoteSocket.mk (remoteOf c (protocol v) (dstIP v)) (dstPort v)))
            (direction v) (processOf c local))
  else if decide (direction v = DirectionDownload) then
    let local := LocalSocket.mk (dstIP v) (dstPort v) (protocol v) in
    Some (Segment.mk (device ph) (dataLen v)
            (Connection.mk local
               (RemoteSocket.mk (remoteOf c (protocol v) (srcIP v)) (srcPort v)))
            (direction v) (processOf c local))
  else Some (Segment.mk (device ph) (dataLen v) zeroConnection (direction v) None).

(** ** Device selection and client set-up *)

(** [pcap.Interface] with the fields the client reads. *)
Record Interface : Type := mkInterface {
  Name : string;
  Addresses : list (list Byte.byte)
}.

(** The capture library as the set-up sees it: [pcap.FindAllDevs],
    [afpacket.NewTPacket] per device name, and compiling and installing the
    BPF filter on a handle ([None] and [false] are failures). *)
Record PcapEnv : Type := mkPcapEnv {
  FindAllDevs : option (list Interface);
  NewTPacket : string → option Z;
  SetBPF : Z → string → bool
}.

(** The inner [for _, pre := range prefix] with its [break]. *)
Definition hasAnyPrefix (prefix : list string) (name : string) : bool :=
  existsb (λ pre, String.prefix pre name) prefix.

Fixpoint selectDevices (prefix : list string) (allowAll : bool)
    (all : list Interface) : list Interface :=
  match all with
  | [] => []
  | dev :: rest =>
      if allowAll then dev :: selectDevices prefix allowAll rest
      else if hasAnyPrefix prefix (Name dev)
      then dev :: selectDevices prefix allowAll rest
      else selectDevices prefix allowAll rest
  end.

Definition listPrefixDevices (env : PcapEnv) (prefix : list string)
    (allowAll : bool) : option (list Interface) :=
  match FindAllDevs env with
  | None => None
  | Some all => Some (selectDevices prefix allowAll all)
  end.

(** [for _, addr := range device.Addresses { c.bindIPs[addr.IP.String()] = true }] *)
Definition bindAddresses (addrs : list (list Byte.byte))
    (m : gmap string bool) : gmap string bool :=
  foldl (λ acc addr, <[IP_String addr := true]> acc) m addrs.

(** The loop over the selected devices; [false] reports the early error
    return, with the client as mutated so far. *)
Fixpoint addDevices (env : PcapEnv) (devs : list Interface) (c : PcapClient)
    : bool * PcapClient :=
  match devs with
  | [] => (true, c)
  | dev :: rest =>
      match NewTPacket env (Name dev) with
      | None => (false, c)
      | Some handler =>
          if negb (bool_decide (bpfFilter c = "")) &&
             negb (SetBPF env handler (bpfFilter c))
          then (false, c)
          else
            addDevices env rest
              (mkPcapClient (bindAddresses (Addresses dev) (bindIPs c))
                 (handlers c ++ [mkPcapHandler (Name dev) handler])
                 (bpfFilter c) (ClientSinker c) (devicesPrefix c)
                 (disableDNSResolve c) (allDevices c) (lookup c)
                 (processMonitor c))
      end
  end.

Definition getAvailableDevices (env : PcapEnv) (c : PcapClient)
    : bool * PcapClient :=
  match listPrefixDevices env (devicesPrefix c) (allDevices c) with
  | None => (false, c)
  | Some devs =>
      match addDevices env devs c with
      | (false, c') => (false, c')
      | (true, c') =>
          if bool_decide (length (handlers c') = 0%nat) then (false, c')
          else (true, c')
      end
  end.

(** [Options] with the fields [NewPcapClient] reads. *)
Record Options : Type := mkOptions {
  BPFFilter : string;
  DevicesPrefix : list string;
  DisableDNSResolve : bool;
  AllDevices : bool
}.

(** [NewPcapClient]; [None] is the [nil, err] return.  The reader
    goroutines it starts are the callers of [parsePacket]. *)
Definition NewPcapClient (env : PcapEnv) (lookup : string → string)
    (opt : Options) (processMonitor : option ProcessMonitor)
    : option PcapClient :=
  match getAvailableDevices env
          (mkPcapClient ∅ [] (BPFFilter opt) NewSinker (DevicesPrefix opt)
             (DisableDNSResolve opt) (AllDevices opt) lookup processMonitor) with
  | (true, c) => Some c
  | (false, _) => None
  end.

(** The address strings bound to a list of devices. *)
Definition deviceIPs (devs : list Interface) : list string :=
  concat (map (λ dev, map IP_String (Addresses dev)) devs).

(** The shapes of [decoded] the reader passes for a TCP or UDP packet: an
    IP layer followed by the transport layer. *)
Definition ipLayer (v6 : bool) (src dst : list Byte.byte) : Layer :=
  if v6 then LayerIPv6 src dst else LayerIPv4 src dst.

Definition l4Layer (udp : bool) (sp dp : Z) (contents payload : list Byte.byte)
    : Layer :=
  if udp then LayerUDP sp dp contents payload
  else LayerTCP sp dp contents payload.

Definition l4Proto (udp : bool) : Protocol :=
  if udp then ProtoUDP else ProtoTCP.

(** The segment [parsePacket] builds for an IP layer followed by a TCP or
    UDP layer. *)
Definition packetSegment (c : PcapClient) (ph : pcapHandler) (udp : bool)
    (src dst : string) (sp dp : Z) (n : Z) : Segment.t :=
  if bound c src then
    Segment.mk (device ph) n
      (Connection.mk (LocalSocket.mk src sp (l4Proto udp))
         (RemoteSocket.mk (remoteOf c (l4Proto udp) dst) dp))
      DirectionUpload (processOf c (LocalSocket.mk src sp (l4Proto udp)))
  else
    Segment.mk (device ph) n
      (Connection.mk (LocalSocket.mk dst dp (l4Proto udp))
         (RemoteSocket.mk (remoteOf c (l4Proto udp) src) sp))
      DirectionDownload (processOf c (LocalSocket.mk dst dp (l4Proto udp))).

(** ** Quantities the resolver is specified by *)

(** The records of one batch up to [NLMSG_DONE], and whether it was met. *)
Fixpoint batchRecords (msgs : list (NetlinkMessage * Time))
    : list inetDiagMsg * bool :=
  match msgs with
  | [] => ([], false)
  | (msg, _) :: rest =>
      if decide (HeaderType msg = NLMSG_DONE) then ([], true)
      else (Diag msg :: (batchRecords rest).1, (batchRecords rest).2)
  end.

(** The records [sockdiagRecv] processes before it returns. *)
Fixpoint processed (events : list RecvEvent) : list inetDiagMsg :=
  match events with
  | RecvMsgs msgs :: rest =>
      if (batchRecords msgs).2 then (batchRecords msgs).1
      else (batchRecords msgs).1 ++ processed rest
  | _ => []
  end.

(** Filing records in order: a later record overwrites an earlier one
    under the same key. *)
Definition fileAll (proto : Z) (inodeMap : gmap Z ProcessInfo.t)
    (records : list inetDiagMsg) (sockets : OpenSockets) : OpenSockets :=
  foldl (λ acc m, <[recordSocket proto m := recordProc inodeMap m]> acc)
    sockets records.

(** No entry of the port cache has an empty or sentinel name. *)
Definition portCacheNamed (nl : netlinkConn) : Prop :=
  ∀ port c, goGet (portCache nl) port = Some c →
    ProcessInfo.Name (info c) ≠ "" ∧
    ProcessInfo.Name (info c) ≠ unknownProcessName.

(** No entry of the inode cache is [cacheTimeout] old or older at [now]. *)
Definition inodeCacheFresh (now : Time) (nl : netlinkConn) : Prop :=
  ∀ inode c, goGet (inodeCache nl) inode = Some c →
    now - timestamp c < cacheTimeout.

(** Both caches allocated, as [GetSocketFetcher] leaves them. *)
Definition cachesAllocated (nl : netlinkConn) : Prop :=
  is_Some (inodeCache nl) ∧ is_Some (portCache nl).

(** How socket enumeration may change the caches: the inode cache is left
    alone, allocated caches stay allocated, the port cache keeps its
    naming invariant and loses no port. *)
Definition nlStep (nl nl' : netlinkConn) : Prop :=
  inodeCache nl' = inodeCache nl ∧
  (cachesAllocated nl → cachesAllocated nl') ∧
  (portCacheNamed nl → portCacheNamed nl') ∧
  (∀ port c, goGet (portCache nl) port = Some c →
             is_Some (goGet (portCache nl') port)).

(** The map [sockdiagRecv] hands back, with or without an error. *)
Definition returned (r : result OpenSockets OpenSockets) : option OpenSockets :=
  match r with
  | Ok m | Err m => Some m
  | Panic => None
  end.



(** ** Scenario data

    Concrete inputs for the scenarios of the specification.  Addresses are
    printed by [dottedQuad], the IPv4 case of [net.IP.String]. *)

Definition quad (a b c d : Byte.byte) : string :=
  pretty (byteZ a) +:+ "." +:+ pretty (byteZ b) +:+ "." +:+
  pretty (byteZ c) +:+ "." +:+ pretty (byteZ d).

(** [net.IP.String] on the two IPv4 forms: four bytes, or sixteen bytes
    read as v4-in-v6. Other slices do not occur in the scenarios. *)
Definition dottedQuad (ip : list Byte.byte) : string :=
  match ip with
  | [a; b; c; d] => quad a b c d
  | [_; _; _; _; _; _; _; _; _; _; _; _; a; b; c; d] => quad a b c d
  | _ => ""
  end.

Definition ip_10_0_0_2 : list Byte.byte := [Byte.x0a; Byte.x00; Byte.x00; Byte.x02].
Definition ip_1_1_1_1 : list Byte.byte := [Byte.x01; Byte.x01; Byte.x01; Byte.x01].
Definition ip_127_0_0_1 : list Byte.byte := [Byte.x7f; Byte.x00; Byte.x00; Byte.x01].

Definition connCurl : Connection.t :=
  Connection.mk (LocalSocket.mk "10.0.0.2" 50000 ProtoTCP)
    (RemoteSocket.mk "1.1.1.1" 443).

Definition curl : ProcessInfo.t := ProcessInfo.mk 42 "curl".

(** Three upload segments of 50 bytes on one connection. *)
Definition seg50 : Segment.t :=
  Segment.mk "eth0" 50 connCurl DirectionUpload (Some curl).

Definition window3 : list Segment.t := [seg50; seg50; seg50].

(** A later segment of the same connection seen with other enrichment. *)
Definition segLate : Segment.t :=
  Segment.mk "lo" 70 connCurl DirectionDownload None.

(** Two monitored devices, every handle opens, the filter installs. *)
Definition twoDevices : PcapEnv :=
  mkPcapEnv
    (Some [mkInterface "eth0" [ip_10_0_0_2]; mkInterface "lo" [ip_127_0_0_1]])
    (λ name, Some (if bool_decide (name = "eth0") then 3 else 4))
    (λ _ _, true).

Definition optsAll : Options := mkOptions "tcp or udp" [] false true.

(** A lookup function that knows one name. *)
Definition lookupOne (ip : string) : string :=
  if bool_decide (ip = "1.1.1.1") then "one.one.one.one" else ip.

(** The same frame carried over UDP (8 bytes of header). *)
Definition curlFrameUDP : list Layer :=
  [LayerIPv4 ip_10_0_0_2 ip_1_1_1_1;
   LayerUDP 50000 443 (replicate 8 Byte.x00) (replicate 100 Byte.x00)].

(** The frame of the upload scenario: 20 bytes of TCP header, 100 of payload. *)
Definition curlFrame : list Layer :=
  [LayerIPv4 ip_10_0_0_2 ip_1_1_1_1;
   LayerTCP 50000 443 (replicate 20 Byte.x00) (replicate 100 Byte.x00)].

(** A fetcher whose port cache holds "foo" for port 5555 since time 0, and
    a refresh at 10 s that finds no process and no socket. *)
Definition fooFetcher : netlinkConn :=
  mkNetlinkConn (Some ∅)
    (Some {[5555 := mkProcessCache (ProcessInfo.mk 1 "foo") 0]}).

Definition quietEnv : ProcEnv :=
  mkProcEnv (Some []) (10 * Second) false (λ _, Some [RecvZero]).

(** A listening socket as the kernel reports it: 0.0.0.0:8080, inode 777. *)
Definition zeroAddr : be32 := mkBe32 Byte.x00 Byte.x00 Byte.x00 Byte.x00.

Definition listenerMsg : inetDiagMsg :=
  mkDiagMsg AF_INET 10 0 0
    (mkSockID (mkBe16 Byte.x1f Byte.x90) (mkBe16 Byte.x00 Byte.x00)
       (zeroAddr, zeroAddr, zeroAddr, zeroAddr)
       (zeroAddr, zeroAddr, zeroAddr, zeroAddr) 0 (0, 0))
    0 0 0 0 777.

Definition nginx : ProcessInfo.t := ProcessInfo.mk 7 "nginx".

(** A monitor whose map resolves the local socket of the upload scenario. *)
Definition curlMonitor : ProcessMonitor :=
  mkProcessMonitor {[LocalSocket.mk "10.0.0.2" 50000 ProtoTCP := curl]}
    (2 * Second) (mkNetlinkConn None None).

(** Statistics whose fetcher is [fooFetcher]. *)
Definition fooStats : StatsManager :=
  mkStatsManager (mkStat ∅ ∅ (Some (FetcherNetlink (Some fooFetcher)))).

(** ** Further quantities of the sink *)

(** The four counters of an entry. *)
Definition counters (ci : ConnectionInfo.t) : Z * Z * Z * Z :=
  (ConnectionInfo.UploadPackets ci, ConnectionInfo.DownloadPackets ci,
   ConnectionInfo.UploadBytes ci, ConnectionInfo.DownloadBytes ci).

(** The entry [Fetch] creates for a connection it has not seen. *)
Definition freshEntry (seg : Segment.t) : ConnectionInfo.t :=
  ConnectionInfo.mk (Segment.Interface seg) 0 0 0 0 (Segment.Process seg).

(** ** Further quantities of the decoder *)

(** Transport layers, and what the last one of a list sets. *)
Definition isL4 (l : Layer) : bool :=
  match l with
  | LayerTCP _ _ _ _ | LayerUDP _ _ _ _ => true
  | _ => false
  end.

(** The source address of an IP layer. *)
Definition ipSource (l : Layer) : option (list Byte.byte) :=
  match l with
  | LayerIPv4 src _ | LayerIPv6 src _ => Some src
  | _ => None
  end.

(** An IP layer whose source address is bound. *)
Definition boundSource (c : PcapClient) (l : Layer) : Prop :=
  ∃ src, ipSource l = Some src ∧ bound c (IP_String src) = true.

(** The addresses of the last IP layer of a list, as strings. *)
Definition lastAddresses (decoded : list Layer) : string * string :=
  foldl (λ acc l,
           match l with
           | LayerIPv4 src dst | LayerIPv6 src dst => (IP_String src, IP_String dst)
           | _ => acc
           end) ("", "") decoded.

(** The protocol of the last transport layer of a list. *)
Definition lastProtocol (decoded : list Layer) : Protocol :=
  foldl (λ acc l,
           match l with
           | LayerTCP _ _ _ _ => ProtoTCP
           | LayerUDP _ _ _ _ => ProtoUDP
           | _ => acc
           end) "" decoded.

(** ** One iteration of the reader (pcap_linux.go, [listen])

    gopacket's [DecodeFromBytes] methods as functions of the bytes they are
    given ([None]: an error): Ethernet yields the EtherType and the
    payload, IPv4 and IPv6 the two addresses and the payload, TCP and UDP
    the two ports, the header bytes and the payload. *)
Record Decoders : Type := mkDecoders {
  decodeEthernet : list Byte.byte → option (Z * list Byte.byte);
  decodeIPv4 :
    list Byte.byte → option (list Byte.byte * list Byte.byte * list Byte.byte);
  decodeIPv6 :
    list Byte.byte → option (list Byte.byte * list Byte.byte * list Byte.byte);
  decodeTCP :
    list Byte.byte → option (Z * Z * list Byte.byte * list Byte.byte);
  decodeUDP :
    list Byte.byte → option (Z * Z * list Byte.byte * list Byte.byte)
}.

Definition EthernetTypeIPv4 : Z := 0x0800.
Definition EthernetTypeIPv6 : Z := 0x86DD.

(** The IP stage: IPv4 is tried first; IPv6 is tried when the payload is
    still empty, that is when IPv4 failed or decoded with no payload. *)
Definition decodeIP (dec : Decoders) (etherPayload : list Byte.byte)
    : list Layer * list Byte.byte :=
  let '(decoded, payload) :=
    match decodeIPv4 dec etherPayload with
    | Some (src, dst, pl) => ([LayerIPv4 src dst], pl)
    | None => ([], [])
    end in
  if bool_decide (len payload = 0) then
    match decodeIPv6 dec etherPayload with
    | Some (src, dst, pl) => (decoded ++ [LayerIPv6 src dst], pl)
    | None => (decoded, payload)
    end
  else (decoded, payload).

(** The layers handed to [parsePacket] for a frame, if it gets that far:
    TCP is tried before UDP. *)
Definition frameLayers (dec : Decoders) (pkt : list Byte.byte)
    : option (list Layer) :=
  match decodeEthernet dec pkt with
  | None => None
  | Some (ty, etherPayload) =>
      if bool_decide (ty = EthernetTypeIPv4) || bool_decide (ty = EthernetTypeIPv6)
      then
        let '(decoded, payload) := decodeIP dec etherPayload in
        if bool_decide (length decoded = 0%nat) || bool_decide (len payload = 0)
        then None
        else
          match decodeTCP dec payload with
          | Some (sp, dp, contents, pl) =>
              Some (decoded ++ [LayerTCP sp dp contents pl])
          | None =>
              match decodeUDP dec payload with
              | Some (sp, dp, contents, pl) =>
                  Some (decoded ++ [LayerUDP sp dp contents pl])
              | None => None
              end
          end
      else None
  end.

(** The [default] branch of the reader's loop on one read ([None]: the
    read failed): the client's sink after the iteration. *)
Definition listenFrame (dec : Decoders) (c : PcapClient) (ph : pcapHandler)
    (read : option (list Byte.byte)) : Sinker :=
  match read with
  | None => ClientSinker c
  | Some pkt =>
      match frameLayers dec pkt with
      | None => ClientSinker c
      | Some decoded =>
          match parsePacket c ph decoded with
          | Some seg => Fetch seg (ClientSinker c)
          | None => ClientSinker c
          end
      end
  end.

(** Data for the reader scenarios: an address that is not bound, and
    decoders for frames laid out as four source bytes, four destination
    bytes, then a transport segment with a 20-byte header. *)
Definition ip_192_168_1_9 : list Byte.byte :=
  [Byte.xc0; Byte.xa8; Byte.x01; Byte.x09].

Definition plainDecoders : Decoders :=
  mkDecoders
    (λ pkt, Some (EthernetTypeIPv4, pkt))
    (λ b, Some (take 4 b, take 4 (drop 4 b), drop 8 b))
    (λ _, None)
    (λ b, Some (50000, 443, take 20 b, drop 20 b))
    (λ _, None).

Definition plainFrame : list Byte.byte :=
  ip_10_0_0_2 ++ ip_1_1_1_1 ++ replicate 120 Byte.x00.

(** A layer list with two IP layers: the first has a bound source, the
    second, which supplies the addresses, has not. *)
Definition twoIPLayers : list Layer :=
  [LayerIPv4 ip_10_0_0_2 ip_1_1_1_1;
   LayerIPv6 ip_192_168_1_9 ip_1_1_1_1;
   LayerTCP 50000 443 (replicate 20 Byte.x00) (replicate 100 Byte.x00)].

(** ** Further quantities of the set-up *)

(** A selected device on which [getAvailableDevices] gives up: its packet
    socket cannot be opened, or the non-empty filter cannot be installed. *)
Definition deviceFails (env : PcapEnv) (filter : string) (dev : Interface) : Prop :=
  NewTPacket env (Name dev) = None ∨
  (filter ≠ "" ∧
   ∃ h, NewTPacket env (Name dev) = Some h ∧ SetBPF env h filter = false).

(** The handler of a device whose packet socket opens. *)
Definition handlerOf (env : PcapEnv) (dev : Interface) : option pcapHandler :=
  mkPcapHandler (Name dev) <$> NewTPacket env (Name dev).

(** The client after one device was added by [getAvailableDevices]. *)
Definition withDevice (c : PcapClient) (dev : Interface) (h : Z) : PcapClient :=
  mkPcapClient (bindAddresses (Addresses dev) (bindIPs c))
    (handlers c ++ [mkPcapHandler (Name dev) h])
    (bpfFilter c) (ClientSinker c) (devicesPrefix c)
    (disableDNSResolve c) (allDevices c) (lookup c) (processMonitor c).

(** Whether installing the filter on a handle makes the set-up fail. *)
Definition filterFails (env : PcapEnv) (filter : string) (h : Z) : bool :=
  negb (bool_decide (filter = "")) && negb (SetBPF env h filter).

(** * Facts *)

(** ** Arithmetic on [int] *)

Lemma wrap_in_range z : GoInt.in_range z → GoInt.wrap z = z.
Proof.
  unfold GoInt.in_range, GoInt.wrap, GoInt.int_min, GoInt.int_max. intros Hz.
  rewrite Z.mod_small; lia.
Qed.

Lemma wrap_add_l a b : GoInt.wrap (GoInt.wrap a + b) = GoInt.wrap (a + b).
Proof.
  unfold GoInt.wrap.
  replace ((a + 2 ^ 63) mod 2 ^ 64 - 2 ^ 63 + b + 2 ^ 63)
    with ((a + 2 ^ 63) mod 2 ^ 64 + b) by lia.
  rewrite Zplus_mod_idemp_l. do 2 f_equal. lia.
Qed.

Lemma add_wrap a b : GoInt.add (GoInt.wrap a) b = GoInt.wrap (a + b).
Proof. apply wrap_add_l. Qed.

Lemma Sub_lt_timeout t u d :
  GoInt.int_min < d → d <= GoInt.int_max → (Sub t u < d ↔ t - u < d).
Proof.
  unfold Sub, GoInt.int_min, GoInt.int_max. intros Hlo Hhi.
  repeat case_decide; lia.
Qed.

(** ** The sink *)

Lemma fetchAll_snoc segs s c :
  fetchAll (segs ++ [s]) c = Fetch s (fetchAll segs c).
Proof. unfold fetchAll. by rewrite foldl_app. Qed.

Lemma segsOf_snoc conn dir segs s :
  segsOf conn dir (segs ++ [s]) =
  segsOf conn dir segs ++
  (if decide (Segment.Connection s = conn ∧ Segment.Direction s = dir)
   then [s] else []).
Proof.
  unfold segsOf. rewrite filter_app. by f_equal.
Qed.

Lemma sumDataLen_app l1 l2 :
  sumDataLen (l1 ++ l2) = sumDataLen l1 + sumDataLen l2.
Proof. unfold sumDataLen. induction l1 as [|x l1 IH]; simpl; lia. Qed.

Lemma bytesOf_snoc conn dir segs s :
  bytesOf conn dir (segs ++ [s]) =
  bytesOf conn dir segs +
  (if decide (Segment.Connection s = conn ∧ Segment.Direction s = dir)
   then Segment.DataLen s else 0).
Proof.
  unfold bytesOf. rewrite segsOf_snoc, sumDataLen_app.
  case_decide; simpl; lia.
Qed.

Lemma packetsOf_snoc conn dir segs s :
  packetsOf conn dir (segs ++ [s]) =
  packetsOf conn dir segs +
  (if decide (Segment.Connection s = conn ∧ Segment.Direction s = dir)
   then 1 else 0).
Proof.
  unfold packetsOf. rewrite segsOf_snoc, length_app.
  case_decide; simpl; lia.
Qed.

Lemma firstOf_snoc conn segs s :
  firstOf conn (segs ++ [s]) =
  match firstOf conn segs with
  | Some s0 => Some s0
  | None => if decide (Segment.Connection s = conn) then Some s else None
  end.
Proof.
  unfold firstOf. rewrite filter_app, filter_cons, filter_nil.
  destruct (filter _ segs) as [|s0 l]; simpl; [by case_decide | done].
Qed.

Lemma firstOf_None conn dir segs :
  firstOf conn segs = None → segsOf conn dir segs = [].
Proof.
  unfold firstOf, segsOf. induction segs as [|s segs IH]; [done|].
  rewrite !filter_cons. repeat case_decide; simpl; try done; intuition.
Qed.

(** [Fetch] touches the entry of the segment's connection only. *)
Lemma Fetch_lookup_ne seg c conn :
  Segment.Connection seg ≠ conn →
  utilization (Fetch seg c) !! conn = utilization c !! conn.
Proof.
  intros Hne. unfold Fetch.
  destruct (utilization c !! Segment.Connection seg) eqn:Hk;
    repeat case_decide; simpl;
    rewrite ?lookup_alter_ne by done; rewrite ?lookup_insert_ne by done; done.
Qed.

Lemma Fetch_lookup_eq seg c :
  utilization (Fetch seg c) !! Segment.Connection seg =
  Some (bump seg
          (default (ConnectionInfo.mk (Segment.Interface seg) 0 0 0 0
                      (Segment.Process seg))
             (utilization c !! Segment.Connection seg))).
Proof.
  unfold Fetch, bump.
  destruct (utilization c !! Segment.Connection seg) eqn:Hk;
    repeat case_decide; simpl;
    rewrite ?lookup_alter_eq, ?lookup_insert_eq, ?Hk; done.
Qed.

(** What a window leaves in the sink, counters reduced to [int]. *)
Lemma fetchAll_lookup segs conn :
  utilization (fetchAll segs NewSinker) !! conn = windowEntry conn segs.
Proof.
  induction segs as [|s segs IH] using rev_ind; [done|].
  rewrite fetchAll_snoc. unfold windowEntry in *.
  rewrite firstOf_snoc, !bytesOf_snoc, !packetsOf_snoc.
  destruct (decide (Segment.Connection s = conn)) as [<-|Hne].
  - rewrite Fetch_lookup_eq, IH. unfold bump, addUpload, addDownload.
    destruct (firstOf (Segment.Connection s) segs) as [s0|] eqn:Hfirst; simpl;
      [|unfold bytesOf, packetsOf, GoInt.add; rewrite !(firstOf_None _ _ _ Hfirst);
        simpl; change (GoInt.wrap 0) with 0];
      unfold DirectionUpload, DirectionDownload;
      repeat case_decide; simpl; rewrite ?add_wrap, ?Z.add_0_r;
      first [done | exfalso; intuition congruence].
  - rewrite Fetch_lookup_ne, IH by done.
    destruct (firstOf conn segs); [|done].
    repeat case_decide; first [by rewrite !Z.add_0_r | exfalso; intuition congruence].
Qed.

Lemma segsOf_bounds conn dir segs :
  Forall (λ s, 0 <= Segment.DataLen s) segs →
  0 <= bytesOf conn dir segs <= sumDataLen segs ∧
  0 <= packetsOf conn dir segs <= Z.of_nat (length segs).
Proof.
  unfold bytesOf, packetsOf, segsOf.
  induction 1 as [|s segs Hs _ IH]; [simpl; lia|].
  rewrite filter_cons. case_decide; simpl in *; lia.
Qed.

Lemma windowFits_in_range conn dir segs :
  windowFits segs →
  GoInt.in_range (bytesOf conn dir segs) ∧
  GoInt.in_range (packetsOf conn dir segs).
Proof.
  intros (Hpos & Hsum & Hlen).
  pose proof (segsOf_bounds conn dir segs Hpos) as [Hb Hp].
  unfold GoInt.in_range, GoInt.int_min, GoInt.int_max in *. lia.
Qed.

Lemma firstOf_is_Some conn segs :
  is_Some (firstOf conn segs) ↔ ∃ s, s ∈ segs ∧ Segment.Connection s = conn.
Proof.
  unfold firstOf. split.
  - intros [s0 Hs0]. exists s0.
    apply head_Some_elem_of in Hs0. by apply list_elem_of_filter in Hs0 as [? ?].
  - intros (s & Hin & Hc).
    assert (s ∈ filter (λ s, Segment.Connection s = conn) segs) as Hf
      by (by apply list_elem_of_filter).
    destruct (filter _ segs); [by apply not_elem_of_nil in Hf | by eexists].
Qed.

(** C1.  Between two drains the sink accumulates, per connection, exactly
    the window's segments: after a drain, fetching [segs] and draining again
    yields a map that has an entry for a connection iff some segment carried
    it; the entry's upload bytes are the sum of [DataLen] over the upload
    segments of that connection and its upload packets their number (the
    same for download), each segment counted once; and a further drain with
    no fetch in between returns the empty map.  The counters are Go [int]s:
    they hold the sums reduced to 64 bits, which are the sums themselves
    whenever the window's totals fit an [int]. *)
Theorem sink_window_totals (c : Sinker) (segs : list Segment.t)
    (conn : Connection.t) :
  let drained := GetUtilization (fetchAll segs (GetUtilization c).2) in
  (is_Some (drained.1 !! conn) ↔
     ∃ s, s ∈ segs ∧ Segment.Connection s = conn) ∧
  (∀ ci, drained.1 !! conn = Some ci →
     ConnectionInfo.UploadBytes ci =
       GoInt.wrap (bytesOf conn DirectionUpload segs) ∧
     ConnectionInfo.UploadPackets ci =
       GoInt.wrap (packetsOf conn DirectionUpload segs) ∧
     ConnectionInfo.DownloadBytes ci =
       GoInt.wrap (bytesOf conn DirectionDownload segs) ∧
     ConnectionInfo.DownloadPackets ci =
       GoInt.wrap (packetsOf conn DirectionDownload segs)) ∧
  (windowFits segs →
   ∀ ci, drained.1 !! conn = Some ci →
     ConnectionInfo.UploadBytes ci = bytesOf conn DirectionUpload segs ∧
     ConnectionInfo.UploadPackets ci = packetsOf conn DirectionUpload segs ∧
     ConnectionInfo.DownloadBytes ci = bytesOf conn DirectionDownload segs ∧
     ConnectionInfo.DownloadPackets ci = packetsOf conn DirectionDownload segs) ∧
  (GetUtilization drained.2).1 = ∅.
Proof.
  simpl. change (mkSinker ∅) with NewSinker. rewrite fetchAll_lookup.
  split; [|split; [|split; [|done]]].
  - rewrite <- firstOf_is_Some. unfold windowEntry.
    destruct (firstOf conn segs); split; intros [? ?]; by eauto.
  - intros ci. unfold windowEntry.
    destruct (firstOf conn segs) as [s0|]; [|done]. by intros [= <-].
  - intros Hfits ci. unfold windowEntry.
    destruct (firstOf conn segs) as [s0|]; [|done].
    intros [= <-]. simpl.
    destruct (windowFits_in_range conn DirectionUpload segs Hfits).
    destruct (windowFits_in_range conn DirectionDownload segs Hfits).
    by rewrite !wrap_in_range.
Qed.

(** C9.  Interface and process of an entry are those of its first
    insertion: [Fetch] on a connection already present keeps both fields,
    [Fetch] on an absent connection records the segment's, and after a
    whole window the entry carries the fields of the window's first segment
    for that connection. *)
Theorem Fetch_keeps_first_insertion :
  (∀ seg c ci,
     utilization c !! Segment.Connection seg = Some ci →
     ∃ ci', utilization (Fetch seg c) !! Segment.Connection seg = Some ci' ∧
       ConnectionInfo.Interface ci' = ConnectionInfo.Interface ci ∧
       ConnectionInfo.Process ci' = ConnectionInfo.Process ci) ∧
  (∀ seg c,
     utilization c !! Segment.Connection seg = None →
     ∃ ci', utilization (Fetch seg c) !! Segment.Connection seg = Some ci' ∧
       ConnectionInfo.Interface ci' = Segment.Interface seg ∧
       ConnectionInfo.Process ci' = Segment.Process seg) ∧
  (∀ segs conn s0,
     firstOf conn segs = Some s0 →
     ∃ ci, utilization (fetchAll segs NewSinker) !! conn = Some ci ∧
       ConnectionInfo.Interface ci = Segment.Interface s0 ∧
       ConnectionInfo.Process ci = Segment.Process s0).
Proof.
  split; [|split].
  - intros seg c ci Hci. rewrite Fetch_lookup_eq, Hci. simpl.
    eexists; split; [done|]. unfold bump. by repeat case_decide.
  - intros seg c Hnone. rewrite Fetch_lookup_eq, Hnone. simpl.
    eexists; split; [done|]. unfold bump. by repeat case_decide.
  - intros segs conn s0 Hfirst. rewrite fetchAll_lookup. unfold windowEntry.
    rewrite Hfirst. by eexists.
Qed.

(** ** The process monitor *)

Lemma GetProcess_firstHit pm socket :
  GetProcess pm socket = firstHit (socketMap pm) (ladder socket).
Proof.
  unfold GetProcess, firstHit, ladder. simpl.
  repeat (match goal with |- context [socketMap pm !! ?k] =>
            destruct (socketMap pm !! k) eqn:?; simpl; try done end).
Qed.

(** C3.  [GetProcess] walks the ladder in order: the exact socket, then
    the same port and protocol under IP "*", "0.0.0.0" and "::"; the first
    hit is returned and the answer is nil only when all four lookups miss.
    A map that holds only ("0.0.0.0", 8080, tcp) for nginx answers the
    query for ("192.168.1.5", 8080, tcp) with nginx. *)
Theorem GetProcess_ladder (pm : ProcessMonitor) (socket : LocalSocket.t) :
  ladder socket =
    [socket;
     LocalSocket.mk "*" (LocalSocket.Port socket) (LocalSocket.Protocol socket);
     LocalSocket.mk "0.0.0.0" (LocalSocket.Port socket) (LocalSocket.Protocol socket);
     LocalSocket.mk "::" (LocalSocket.Port socket) (LocalSocket.Protocol socket)] ∧
  GetProcess pm socket = firstHit (socketMap pm) (ladder socket) ∧
  (GetProcess pm socket = None ↔
     Forall (λ k, socketMap pm !! k = None) (ladder socket)) ∧
  GetProcess
    (mkProcessMonitor
       {[LocalSocket.mk "0.0.0.0" 8080 ProtoTCP := ProcessInfo.mk 7 "nginx"]}
       (refreshInterval pm) (nlConn pm))
    (LocalSocket.mk "192.168.1.5" 8080 ProtoTCP) =
  Some (ProcessInfo.mk 7 "nginx").
Proof.
  split; [done|]. split; [apply GetProcess_firstHit|]. split.
  - unfold GetProcess, ladder. rewrite !Forall_cons, Forall_nil.
    repeat (match goal with |- context [socketMap pm !! ?k] =>
              destruct (socketMap pm !! k) eqn:?; simpl end);
      split; intros; try done; intuition congruence.
  - unfold GetProcess. simpl. unfold LocalSocket.withIP. simpl.
    rewrite !lookup_singleton_ne by (intros [=]).
    by rewrite lookup_singleton_eq.
Qed.


(** ** The packet decoder *)

Lemma parsePacket_packet c ph v6 src dst udp sp dp contents payload :
  parsePacket c ph [ipLayer v6 src dst; l4Layer udp sp dp contents payload] =
  Some (packetSegment c ph udp (IP_String src) (IP_String dst) sp dp
          (len contents + len payload)).
Proof.
  unfold parsePacket, packetSegment.
  destruct v6, udp; simpl; destruct (bound c (IP_String src)); reflexivity.
Qed.

Lemma remoteOf_raw c udp ip :
  udp = true ∨ disableDNSResolve c = true → remoteOf c (l4Proto udp) ip = ip.
Proof.
  unfold remoteOf. intros [-> | ->]; simpl; [done|].
  by rewrite andb_false_r.
Qed.

Lemma remoteOf_tcp c ip :
  disableDNSResolve c = false → remoteOf c (l4Proto false) ip = lookup c ip.
Proof. unfold remoteOf. by intros ->. Qed.

(** The local variables after the loop, on any list of layers. *)

Lemma parseVars_snoc c decoded l :
  foldl (parseLayer c) parseInit (decoded ++ [l]) =
  parseLayer c (foldl (parseLayer c) parseInit decoded) l.
Proof. by rewrite foldl_app. Qed.

Lemma parseVars_protocol c decoded :
  protocol (foldl (parseLayer c) parseInit decoded) = "" ↔
  Forall (λ l, isL4 l = false) decoded.
Proof.
  induction decoded as [|l decoded IH] using rev_ind; [done|].
  rewrite parseVars_snoc, Forall_app, Forall_singleton, <- IH.
  destruct l; simpl; unfold ProtoTCP, ProtoUDP; intuition congruence.
Qed.

Lemma boundSource_layer c l :
  boundSource c l ↔
  match l with
  | LayerIPv4 src _ | LayerIPv6 src _ => bound c (IP_String src) = true
  | _ => False
  end.
Proof.
  unfold boundSource. destruct l; simpl; split;
    try (intros (src' & [= <-] & ?); done);
    try (intros (src' & [=] & ?)); try done; by eauto.
Qed.

Lemma parseVars_direction c decoded :
  let v := foldl (parseLayer c) parseInit decoded in
  (direction v = DirectionUpload ∨ direction v = DirectionDownload) ∧
  (direction v = DirectionUpload ↔ Exists (boundSource c) decoded) ∧
  (srcIP v, dstIP v) = lastAddresses decoded.
Proof.
  induction decoded as [|l decoded IH] using rev_ind.
  - simpl. split; [by right|]. split; [|done].
    rewrite Exists_nil. unfold DirectionUpload, DirectionDownload.
    intuition congruence.
  - cbv zeta in *. unfold lastAddresses in *.
    rewrite parseVars_snoc, Exists_app, Exists_cons, Exists_nil, foldl_app.
    rewrite boundSource_layer.
    destruct IH as (Hdir & Hup & Haddr). rewrite <- Hup.
    set (v := foldl (parseLayer c) parseInit decoded) in *.
    destruct l as [src dst|src dst|sp dp ct pl|sp dp ct pl|]; simpl;
      try destruct (bound c (IP_String src)) eqn:Hb; simpl;
      (split; [by auto|]); (split; [|done]); intuition congruence.
Qed.

Lemma parseVars_lastProtocol c decoded :
  let v := foldl (parseLayer c) parseInit decoded in
  protocol v = lastProtocol decoded ∧
  (protocol v = "" ∨ protocol v = ProtoTCP ∨ protocol v = ProtoUDP).
Proof.
  induction decoded as [|l decoded IH] using rev_ind.
  - simpl. split; [done|by left].
  - cbv zeta in *. unfold lastProtocol in *.
    rewrite parseVars_snoc, foldl_app. destruct IH as [IH Hcases].
    destruct l; simpl; (split; [done|]); auto.
Qed.

(** C2 (as amended).  For an IP layer followed by a TCP or UDP layer
    [parsePacket] emits a segment; its direction is Upload iff the source
    address is in the bound set and Download otherwise; its length is the
    length of the transport header plus that of the payload; on Upload the
    connection is Local = (srcIP, srcPort, proto), Remote = (r dstIP, dstPort)
    and on Download Local = (dstIP, dstPort, proto), Remote = (r srcIP,
    srcPort), where r is the identity for UDP and with DNS resolution
    disabled, and the DNS lookup for TCP with DNS resolution enabled. *)
Theorem parsePacket_segment (c : PcapClient) (ph : pcapHandler) (v6 udp : bool)
    (src dst : list Byte.byte) (sp dp : Z) (contents payload : list Byte.byte) :
  ∃ seg,
    parsePacket c ph [ipLayer v6 src dst; l4Layer udp sp dp contents payload]
      = Some seg ∧
    let proto := if udp then ProtoUDP else ProtoTCP in
    let r ip :=
      if udp then ip else if disableDNSResolve c then ip else lookup c ip in
    (Segment.Direction seg = DirectionUpload ↔ bound c (IP_String src) = true) ∧
    (Segment.Direction seg = DirectionDownload ↔ bound c (IP_String src) = false) ∧
    Segment.DataLen seg = len contents + len payload ∧
    (Segment.Direction seg = DirectionUpload →
       Segment.Connection seg =
       Connection.mk (LocalSocket.mk (IP_String src) sp proto)
         (RemoteSocket.mk (r (IP_String dst)) dp)) ∧
    (Segment.Direction seg = DirectionDownload →
       Segment.Connection seg =
       Connection.mk (LocalSocket.mk (IP_String dst) dp proto)
         (RemoteSocket.mk (r (IP_String src)) sp)).
Proof.
  eexists. split; [apply parsePacket_packet|].
  unfold packetSegment, remoteOf, l4Proto.
  destruct (bound c (IP_String src)), udp, (disableDNSResolve c); simpl;
    repeat split; done.
Qed.

(** C4.  On any list of decoded layers, the remote address of the segment
    [parsePacket] emits is the result of the DNS lookup on the raw far
    address exactly when the protocol is TCP and DNS resolution is enabled;
    for UDP, and with resolution disabled, it is the raw address; and with
    the resolver of the specification as [lookup], an address the resolver
    has no name for stays unchanged.  The protocol is that of the last
    transport layer, and the raw far address is the destination (Upload) or
    the source (Download) of the last IP layer. *)
Theorem parsePacket_dns (c : PcapClient) (ph : pcapHandler)
    (decoded : list Layer) (seg : Segment.t) :
  parsePacket c ph decoded = Some seg →
  let proto := LocalSocket.Protocol (Connection.Local (Segment.Connection seg)) in
  let raw :=
    if decide (Segment.Direction seg = DirectionUpload)
    then (lastAddresses decoded).2 else (lastAddresses decoded).1 in
  let remote := RemoteSocket.IP (Connection.Remote (Segment.Connection seg)) in
  proto = lastProtocol decoded ∧
  (proto = ProtoTCP ∨ proto = ProtoUDP) ∧
  (proto = ProtoTCP ∧ disableDNSResolve c = false → remote = lookup c raw) ∧
  (proto = ProtoUDP ∨ disableDNSResolve c = true → remote = raw) ∧
  (∀ r, lookup c = DNSResolver_Lookup r → hostnames r !! raw = None →
        remote = raw).
Proof.
  unfold parsePacket.
  pose proof (parseVars_direction c decoded) as (Hdir & _ & Haddr).
  pose proof (parseVars_lastProtocol c decoded) as (Hlast & Hproto).
  cbv zeta in *. rewrite <- Haddr, <- Hlast.
  set (v := foldl (parseLayer c) parseInit decoded) in *.
  assert (∀ r ip, lookup c = DNSResolver_Lookup r → hostnames r !! ip = None →
                  remoteOf c (protocol v) ip = ip) as Hmiss.
  { intros r ip Hl Hnone. unfold remoteOf. rewrite Hl.
    unfold DNSResolver_Lookup. rewrite Hnone. by case_match. }
  assert (∀ ip, protocol v = ProtoTCP ∧ disableDNSResolve c = false →
                remoteOf c (protocol v) ip = lookup c ip) as Htcp.
  { intros ip [Htcp Hdns]. unfold remoteOf. by rewrite Htcp, Hdns. }
  assert (∀ ip, protocol v = ProtoUDP ∨ disableDNSResolve c = true →
                remoteOf c (protocol v) ip = ip) as Hraw.
  { intros ip [Hudp | Hdns]; unfold remoteOf; [by rewrite Hudp|].
    by rewrite Hdns, andb_false_r. }
  destruct (decide (protocol v = "")) as [|Hne]; [done|].
  assert (protocol v = ProtoTCP ∨ protocol v = ProtoUDP) as Hl4
    by (destruct Hproto as [?|?]; done).
  destruct (decide (direction v = DirectionUpload)) as [Hup|Hnup].
  - intros [= <-]. simpl. rewrite decide_True by done. simpl.
    split; [done|]. split; [done|]. split; [apply Htcp|].
    split; [apply Hraw|]. intros r. apply Hmiss.
  - destruct (decide (direction v = DirectionDownload)) as [Hdown|Hndown];
      [|by destruct Hdir].
    intros [= <-]. simpl. rewrite decide_False by done. simpl.
    split; [done|]. split; [done|]. split; [apply Htcp|].
    split; [apply Hraw|]. intros r. apply Hmiss.
Qed.

(** ** Device set-up and the bound addresses *)

Lemma bindAddresses_bound addrs (m : gmap string bool) ip :
  default false (bindAddresses addrs m !! ip) = true ↔
  default false (m !! ip) = true ∨ ip ∈ map IP_String addrs.
Proof.
  unfold bindAddresses. revert m.
  induction addrs as [|a addrs IH]; intros m; simpl.
  - rewrite elem_of_nil. tauto.
  - rewrite IH, elem_of_cons.
    destruct (decide (IP_String a = ip)) as [->|Hne].
    + rewrite lookup_insert_eq. simpl. tauto.
    + rewrite lookup_insert_ne by done. intuition congruence.
Qed.

Lemma addDevices_ok env devs c c' :
  addDevices env devs c = (true, c') →
  (∀ ip, bound c' ip = true ↔ bound c ip = true ∨ ip ∈ deviceIPs devs) ∧
  map device (handlers c') = map device (handlers c) ++ map Name devs.
Proof.
  revert c. induction devs as [|dev devs IH]; intros c; simpl.
  - intros [= <-]. split; [|by rewrite app_nil_r].
    intros ip. unfold deviceIPs. simpl. rewrite elem_of_nil. tauto.
  - destruct (NewTPacket env (Name dev)) as [handler|]; [|done].
    destruct (_ && _); [done|].
    intros Hrest. apply IH in Hrest as [Hbound Hhandlers]. split.
    + intros ip. rewrite Hbound. unfold bound at 1. simpl.
      rewrite bindAddresses_bound. unfold deviceIPs. simpl.
      rewrite elem_of_app. unfold bound. tauto.
    + rewrite Hhandlers. simpl. rewrite map_app. simpl.
      by rewrite <- app_assoc.
Qed.

(** C8 (as amended).  A client built by [NewPcapClient] keeps one set of
    bound addresses for all its handles: the addresses of every selected
    device.  Whatever handle a frame is read from and whatever layers were
    decoded, the emitted segment is an Upload iff the source address of one
    of the IP layers is bound to some selected device, and a Download
    otherwise; for an IP layer followed by a transport layer a segment is
    emitted, and it is an Upload iff the source address is bound to some
    selected device. *)
Theorem direction_uses_all_devices (env : PcapEnv) (resolve : string → string)
    (opt : Options) (pm : option ProcessMonitor) (c : PcapClient) :
  NewPcapClient env resolve opt pm = Some c →
  ∃ all,
    FindAllDevs env = Some all ∧
    let devs := selectDevices (DevicesPrefix opt) (AllDevices opt) all in
    let onDevice l :=
      ∃ src, ipSource l = Some src ∧ IP_String src ∈ deviceIPs devs in
    map device (handlers c) = map Name devs ∧
    (∀ ip, bound c ip = true ↔ ip ∈ deviceIPs devs) ∧
    (∀ ph decoded seg,
       parsePacket c ph decoded = Some seg →
       (Segment.Direction seg = DirectionUpload ↔ Exists onDevice decoded) ∧
       (Segment.Direction seg = DirectionDownload ↔ ¬ Exists onDevice decoded)) ∧
    (∀ ph v6 udp src dst sp dp contents payload,
       ∃ seg,
         parsePacket c ph [ipLayer v6 src dst; l4Layer udp sp dp contents payload]
           = Some seg ∧
         (Segment.Direction seg = DirectionUpload ↔
            IP_String src ∈ deviceIPs devs)).
Proof.
  unfold NewPcapClient, getAvailableDevices, listPrefixDevices. simpl.
  destruct (FindAllDevs env) as [all|]; [|done].
  destruct (addDevices _ _ _) as [[] c'] eqn:Hadd; [|done].
  case_bool_decide; [done|]. intros [= ->].
  apply addDevices_ok in Hadd as [Hbound Hhandlers]. simpl in *.
  assert (∀ ip, bound c ip = true ↔
            ip ∈ deviceIPs (selectDevices (DevicesPrefix opt) (AllDevices opt) all))
    as Hb.
  { intros ip. rewrite Hbound. unfold bound at 1. simpl.
    rewrite lookup_empty. simpl. intuition congruence. }
  exists all. split; [done|]. split; [done|]. split; [done|]. split.
  - intros ph decoded seg.
    assert (Exists (boundSource c) decoded ↔
            Exists (λ l, ∃ src, ipSource l = Some src ∧
                      IP_String src ∈ deviceIPs
                        (selectDevices (DevicesPrefix opt) (AllDevices opt) all))
              decoded) as <-.
    { apply Exists_proper; [|done]. intros l. unfold boundSource.
      by setoid_rewrite Hb. }
    unfold parsePacket.
    pose proof (parseVars_direction c decoded) as (Hdir & Hup & _).
    cbv zeta in *. rewrite <- Hup.
    destruct (decide (protocol _ = "")); [done|].
    repeat case_decide; intros [= <-]; simpl;
      unfold DirectionUpload, DirectionDownload in *;
      split; first [done | intuition congruence].
  - intros. eexists. split; [apply parsePacket_packet|].
    rewrite <- Hb. unfold packetSegment.
    by destruct (bound c (IP_String src)).
Qed.

(** ** Socket enumeration *)

Lemma cacheable_spec p :
  cacheable p = true ↔
  ProcessInfo.Name p ≠ "" ∧ ProcessInfo.Name p ≠ unknownProcessName.
Proof.
  unfold cacheable. rewrite andb_true_iff, !bool_decide_eq_true. tauto.
Qed.

(** One record: the socket map gains the record's key; the port cache gains
    the record's port when the name is usable and is untouched otherwise. *)
Lemma recvRecord_spec proto inodeMap m now sockets nl :
  let p := recordProc inodeMap m in
  let key := recordSocket proto m in
  recvRecord proto inodeMap m now sockets nl =
  if cacheable p then
    match portCache nl with
    | None => None
    | Some pc =>
        Some (<[key := p]> sockets,
              mkNetlinkConn (inodeCache nl)
                (Some (<[LocalSocket.Port key := mkProcessCache p now]> pc)))
    end
  else Some (<[key := p]> sockets, nl).
Proof. reflexivity. Qed.

Lemma recvRecord_allocated proto inodeMap m now sockets nl :
  cachesAllocated nl →
  ∃ nl', recvRecord proto inodeMap m now sockets nl =
           Some (<[recordSocket proto m := recordProc inodeMap m]> sockets, nl') ∧
         cachesAllocated nl' ∧ inodeCache nl' = inodeCache nl.
Proof.
  intros [Hi [pc Hpc]]. rewrite recvRecord_spec. simpl. rewrite Hpc.
  destruct (cacheable _); eexists; (split; [done|]); (split; [|done]);
    split; simpl; by eauto.
Qed.

Lemma recvRecord_named proto inodeMap m now sockets nl sockets' nl' :
  recvRecord proto inodeMap m now sockets nl = Some (sockets', nl') →
  portCacheNamed nl → portCacheNamed nl'.
Proof.
  rewrite recvRecord_spec. cbv zeta.
  set (k := LocalSocket.Port (recordSocket proto m)).
  destruct (cacheable _) eqn:Hc; [|by intros [= _ <-]].
  destruct (portCache nl) as [pc|] eqn:Hpc; [|done].
  intros [= _ <-] Hnamed port c. cbn [goGet portCache].
  destruct (decide (k = port)) as [->|Hne].
  - rewrite lookup_insert_eq. intros [= <-]. simpl. by apply cacheable_spec.
  - rewrite lookup_insert_ne by done. intros Hl. apply (Hnamed port).
    by rewrite Hpc.
Qed.

Lemma recvRecord_inodeCache proto inodeMap m now sockets nl sockets' nl' :
  recvRecord proto inodeMap m now sockets nl = Some (sockets', nl') →
  inodeCache nl' = inodeCache nl ∧
  sockets' = <[recordSocket proto m := recordProc inodeMap m]> sockets ∧
  (∀ port c, goGet (portCache nl) port = Some c →
             is_Some (goGet (portCache nl') port)).
Proof.
  rewrite recvRecord_spec. cbv zeta.
  set (k := LocalSocket.Port (recordSocket proto m)).
  destruct (cacheable _); [|intros [= <- <-]; by eauto].
  destruct (portCache nl) as [pc|] eqn:Hpc; [|done].
  intros [= <- <-]. cbn [goGet portCache inodeCache]. split; [done|]. split; [done|].
  intros port c Hl.
  destruct (decide (k = port)) as [->|Hne].
  - rewrite lookup_insert_eq. by eauto.
  - rewrite lookup_insert_ne by done. by eauto.
Qed.

Lemma nlStep_refl nl : nlStep nl nl.
Proof. unfold nlStep. by eauto. Qed.

Lemma nlStep_trans nl1 nl2 nl3 : nlStep nl1 nl2 → nlStep nl2 nl3 → nlStep nl1 nl3.
Proof.
  intros (Hi1 & Ha1 & Hn1 & Hp1) (Hi2 & Ha2 & Hn2 & Hp2).
  split; [congruence|]. split; [by auto|]. split; [by auto|].
  intros port c Hc. destruct (Hp1 port c Hc) as [c' Hc']. by eauto.
Qed.

Lemma recvRecord_step proto inodeMap m now sockets nl sockets' nl' :
  recvRecord proto inodeMap m now sockets nl = Some (sockets', nl') →
  nlStep nl nl'.
Proof.
  intros Hrec. pose proof (recvRecord_inodeCache _ _ _ _ _ _ _ _ Hrec) as (Hi & _ & Hp).
  split; [done|]. split; [|split; [by eapply recvRecord_named|done]].
  intros Halloc.
  destruct (recvRecord_allocated proto inodeMap m now sockets nl Halloc)
    as (nl2 & Hrec2 & Halloc2 & _).
  rewrite Hrec in Hrec2. by injection Hrec2 as _ ->.
Qed.

Lemma recvBatch_step proto inodeMap msgs sockets nl :
  nlStep nl (recvBatch proto inodeMap msgs sockets nl).2.
Proof.
  revert sockets nl. induction msgs as [|[msg now] msgs IH]; intros sockets nl; simpl.
  - apply nlStep_refl.
  - case_decide; [apply nlStep_refl|].
    destruct (recvRecord _ _ _ _ _ _) as [[sockets' nl']|] eqn:Hrec;
      [|apply nlStep_refl].
    eapply nlStep_trans; [by eapply recvRecord_step | apply IH].
Qed.

Lemma recvBatch_sockets proto inodeMap msgs sockets nl :
  (recvBatch proto inodeMap msgs sockets nl).1.1 ≠ BatchPanic →
  (recvBatch proto inodeMap msgs sockets nl).1.2 =
    fileAll proto inodeMap (batchRecords msgs).1 sockets ∧
  ((recvBatch proto inodeMap msgs sockets nl).1.1 = BatchDone ↔
     (batchRecords msgs).2 = true).
Proof.
  revert sockets nl. induction msgs as [|[msg now] msgs IH]; intros sockets nl; simpl.
  - done.
  - case_decide; [done|].
    destruct (recvRecord _ _ _ _ _ _) as [[sockets' nl']|] eqn:Hrec; [|done].
    apply recvRecord_inodeCache in Hrec as (_ & -> & _).
    intros Hnp. by apply IH.
Qed.

Lemma recvBatch_allocated proto inodeMap msgs sockets nl :
  cachesAllocated nl →
  (recvBatch proto inodeMap msgs sockets nl).1.1 ≠ BatchPanic.
Proof.
  revert sockets nl. induction msgs as [|[msg now] msgs IH]; intros sockets nl Ha; simpl.
  - done.
  - case_decide; [done|].
    destruct (recvRecord_allocated proto inodeMap (Diag msg) now sockets nl Ha)
      as (nl' & -> & Ha' & _).
    by apply IH.
Qed.

Lemma sockdiagRecvFrom_step proto inodeMap events sockets nl :
  nlStep nl (sockdiagRecvFrom proto inodeMap events sockets nl).2.
Proof.
  revert sockets nl. induction events as [|ev events IH]; intros sockets nl; simpl.
  - apply nlStep_refl.
  - destruct ev as [| | |msgs]; try apply nlStep_refl.
    pose proof (recvBatch_step proto inodeMap msgs sockets nl) as Hb.
    destruct (recvBatch _ _ _ _ _) as [[[] sockets'] nl']; simpl in *; try done.
    eapply nlStep_trans; [done | apply IH].
Qed.

Lemma sockdiagRecvFrom_sockets proto inodeMap events sockets nl m :
  returned (sockdiagRecvFrom proto inodeMap events sockets nl).1 = Some m →
  m = fileAll proto inodeMap (processed events) sockets.
Proof.
  revert sockets nl. induction events as [|ev events IH]; intros sockets nl; simpl.
  - by intros [= <-].
  - destruct ev as [| | |msgs]; simpl; try by intros [= <-].
    pose proof (recvBatch_sockets proto inodeMap msgs sockets nl) as Hb.
    destruct (recvBatch _ _ _ _ _) as [[[] sockets'] nl']; simpl in *.
    + destruct Hb as [-> Hd]; [done|]. rewrite (proj1 Hd) by done.
      by intros [= <-].
    + destruct Hb as [-> Hd]; [done|].
      destruct ((batchRecords msgs).2); [by destruct Hd as [_ Hd]; specialize (Hd eq_refl)|].
      intros Hm. apply IH in Hm. unfold fileAll in *. by rewrite foldl_app.
    + done.
Qed.

Lemma sockdiagRecvFrom_allocated proto inodeMap events sockets nl :
  cachesAllocated nl →
  is_Some (returned (sockdiagRecvFrom proto inodeMap events sockets nl).1).
Proof.
  revert sockets nl. induction events as [|ev events IH]; intros sockets nl Ha; simpl.
  - by eauto.
  - destruct ev as [| | |msgs]; simpl; try by eauto.
    pose proof (recvBatch_allocated proto inodeMap msgs sockets nl Ha) as Hnp.
    pose proof (recvBatch_step proto inodeMap msgs sockets nl) as (_ & Ha' & _).
    destruct (recvBatch _ _ _ _ _) as [[[] sockets'] nl']; simpl in *;
      [by eauto | by apply IH; auto | done].
Qed.

Lemma fileAll_snoc proto inodeMap records m sockets :
  fileAll proto inodeMap (records ++ [m]) sockets =
  <[recordSocket proto m := recordProc inodeMap m]>
    (fileAll proto inodeMap records sockets).
Proof. unfold fileAll. by rewrite foldl_app. Qed.



Lemma recvAll_step inodeMap fds sockets nl :
  nlStep nl (recvAll inodeMap fds sockets nl).2.
Proof.
  revert sockets nl. induction fds as [|[proto events] fds IH]; intros sockets nl; simpl.
  - apply nlStep_refl.
  - unfold sockdiagRecv.
    pose proof (sockdiagRecvFrom_step proto inodeMap events ∅ nl) as Hs.
    destruct (sockdiagRecvFrom _ _ _ _ _) as [[m|m|] nl']; simpl in *; try done.
    eapply nlStep_trans; [done | apply IH].
Qed.


Lemma recvAll_allocated inodeMap fds sockets nl :
  cachesAllocated nl → (recvAll inodeMap fds sockets nl).1 ≠ Panic.
Proof.
  revert sockets nl. induction fds as [|[proto events] fds IH]; intros sockets nl Ha; simpl.
  - done.
  - unfold sockdiagRecv.
    pose proof (sockdiagRecvFrom_allocated proto inodeMap events ∅ nl Ha) as [m Hm].
    pose proof (sockdiagRecvFrom_step proto inodeMap events ∅ nl) as (_ & Ha' & _).
    destruct (sockdiagRecvFrom _ _ _ _ _) as [[?|?|] nl']; simpl in *; try done.
    by apply IH; auto.
Qed.

Lemma getOpenSockets_step env inodeMap nl :
  nlStep nl (getOpenSockets env inodeMap nl).2.
Proof.
  unfold getOpenSockets.
  destruct (sendAll _ _); [apply recvAll_step | apply nlStep_refl].
Qed.

Lemma getOpenSockets_allocated env inodeMap nl :
  cachesAllocated nl → (getOpenSockets env inodeMap nl).1 ≠ Panic.
Proof.
  unfold getOpenSockets. intros Ha.
  destruct (sendAll _ _); [by apply recvAll_allocated | done].
Qed.

(** ** The inode scan and its cache *)

Lemma collectInodes_spec now p inodes m nl :
  match collectInodes now p inodes m nl with
  | Some (m', nl') =>
      portCache nl' = portCache nl ∧
      (is_Some (inodeCache nl) → is_Some (inodeCache nl')) ∧
      (inodeCache nl = None → nl' = nl ∧ m' = m)
  | None => inodeCache nl = None
  end.
Proof.
  revert m nl. induction inodes as [|inode inodes IH]; intros m nl; simpl.
  - done.
  - destruct (inodeCache nl) as [g|] eqn:Hg; [|done].
    match goal with |- context [collectInodes now p inodes ?m' ?nl'] =>
      specialize (IH m' nl') end.
    destruct (collectInodes _ _ _ _ _) as [[m' nl']|]; simpl in *; [|done].
    destruct IH as (Hp & Hi & _). split; [done|]. split; [by eauto|done].
Qed.

Lemma collectResults_spec now results m nl :
  match collectResults now results m nl with
  | Some (m', nl') =>
      portCache nl' = portCache nl ∧
      (is_Some (inodeCache nl) → is_Some (inodeCache nl')) ∧
      (inodeCache nl = None → nl' = nl ∧ m' = m)
  | None => inodeCache nl = None
  end.
Proof.
  revert m nl. induction results as [|res results IH]; intros m nl; simpl.
  - done.
  - pose proof (collectInodes_spec now (procInfo res) (inodes res) m nl) as Hc.
    destruct (collectInodes _ _ _ _ _) as [[m1 nl1]|]; [|done].
    destruct Hc as (Hp1 & Hi1 & Hn1).
    specialize (IH m1 nl1).
    destruct (collectResults _ _ _ _) as [[m2 nl2]|].
    + destruct IH as (Hp2 & Hi2 & Hn2).
      split; [congruence|]. split; [by auto|].
      intros Hnil. destruct (Hn1 Hnil) as [-> ->].
      by destruct (Hn2 Hnil) as [-> ->].
    + destruct (inodeCache nl) eqn:Hnl; [|done].
      destruct Hi1 as [g' Hg']; [by eauto|]. congruence.
Qed.

Lemma getAllProcsInodes_spec now results nl :
  let r := getAllProcsInodes now results nl in
  portCache r.2 = portCache nl ∧
  (cachesAllocated nl → is_Some r.1 ∧ cachesAllocated r.2) ∧
  (is_Some r.1 → inodeCacheFresh now r.2) ∧
  (inodeCache nl = None → r.2 = nl ∧ (r.1 = None ∨ r.1 = Some ∅)).
Proof.
  unfold getAllProcsInodes.
  pose proof (collectResults_spec now results (cachedInodes now (inodeCache nl)) nl) as Hc.
  destruct (collectResults _ _ _ _) as [[m nl']|]; simpl.
  - destruct Hc as (Hp & Hi & Hn). split; [done|]. split; [|split].
    + intros [Ha1 Ha2]. split; [by eauto|].
      split; simpl; [|by rewrite Hp].
      destruct (Hi Ha1) as [g ->]. by eauto.
    + intros _ inode c. unfold sweepInodes. simpl.
      destruct (inodeCache nl') as [g|]; simpl; [|done].
      intros [_ Hfresh]%map_lookup_filter_Some. simpl in Hfresh.
      apply (Sub_lt_timeout now (timestamp c) cacheTimeout); [done|done|lia].
    + intros Hnil. destruct (Hn Hnil) as [-> ->].
      destruct nl as [ic pc]. simpl in Hnil. subst ic.
      split; [done|by right].
  - split; [done|]. split; [|split].
    + intros [[g Hg] _]. congruence.
    + by intros [? ?].
    + by eauto.
Qed.

(** ** One refresh of the socket fetcher *)

Lemma portCacheNamed_eq nl nl' :
  portCache nl' = portCache nl → portCacheNamed nl → portCacheNamed nl'.
Proof. unfold portCacheNamed. by intros ->. Qed.

Lemma GetOpenSockets_spec env nl :
  let r := GetOpenSockets env nl in
  (portCacheNamed nl → portCacheNamed r.2) ∧
  (∀ port c, goGet (portCache nl) port = Some c →
             is_Some (goGet (portCache r.2) port)) ∧
  (cachesAllocated nl → r.1 ≠ Panic ∧ cachesAllocated r.2) ∧
  (is_Some (envProcs env) → r.1 ≠ Panic → inodeCacheFresh (envNow env) r.2).
Proof.
  unfold GetOpenSockets.
  destruct (envProcs env) as [procs|]; simpl.
  2:{ split; [done|]. split; [by eauto|]. split; [done|]. by intros [? ?]. }
  pose proof (getAllProcsInodes_spec (envNow env) (scanResults procs) nl)
    as (Hp & Ha & Hf & _).
  destruct (getAllProcsInodes _ _ _) as [[inodeMap|] nl1]; simpl in *.
  - pose proof (getOpenSockets_step env inodeMap nl1) as (Hi & Ha2 & Hn2 & Hp2).
    split; [|split; [|split]].
    + intros Hn. apply Hn2. by eapply portCacheNamed_eq.
    + intros port c Hc. apply (Hp2 port c). by rewrite Hp.
    + intros Halloc. destruct (Ha Halloc) as [_ Ha1].
      split; [by apply getOpenSockets_allocated | by auto].
    + intros _ _ inode c. rewrite Hi. by apply Hf.
  - split; [by apply portCacheNamed_eq|]. split; [|split].
    + intros port c. rewrite Hp. by eauto.
    + intros Halloc. by destruct (Ha Halloc) as [[? ?] _].
    + done.
Qed.

Lemma getProcNameFallback_netlink now s sock nl c :
  StatSocketFetcher (stat s) = Some (FetcherNetlink (Some nl)) →
  goGet (portCache nl) (LocalSocket.Port sock) = Some c →
  getProcNameFallback now s sock =
  if decide (now - timestamp c < cacheTimeout)
  then ProcessInfo.String (info c) else "".
Proof.
  unfold getProcNameFallback. intros -> ->.
  pose proof (Sub_lt_timeout now (timestamp c) cacheTimeout) as Hsub.
  change (5 * Second) with cacheTimeout.
  repeat case_decide; try done; exfalso; unfold cacheTimeout, Second in *;
    unfold GoInt.int_min, GoInt.int_max in *; lia.
Qed.

(** C5 (as amended).  The inode cache is swept: after [getAllProcsInodes]
    returns, and so after a refresh that listed the PIDs and did not panic,
    no inode cache entry is 5 seconds old or older; a fetcher with allocated
    caches never panics.  The port cache is not swept, a refresh removes no
    port from it; expiry is applied when it is read: the fallback answers
    the empty string for an entry aged 5 seconds or more and the process
    string for a younger one. *)
Theorem cache_expiry :
  (∀ now results nl,
     is_Some (getAllProcsInodes now results nl).1 →
     inodeCacheFresh now (getAllProcsInodes now results nl).2) ∧
  (∀ env nl,
     is_Some (envProcs env) → (GetOpenSockets env nl).1 ≠ Panic →
     inodeCacheFresh (envNow env) (GetOpenSockets env nl).2) ∧
  (∀ env nl, cachesAllocated nl → (GetOpenSockets env nl).1 ≠ Panic) ∧
  (∀ env nl port c,
     goGet (portCache nl) port = Some c →
     is_Some (goGet (portCache (GetOpenSockets env nl).2) port)) ∧
  (∀ now s sock nl c,
     StatSocketFetcher (stat s) = Some (FetcherNetlink (Some nl)) →
     goGet (portCache nl) (LocalSocket.Port sock) = Some c →
     (cacheTimeout <= now - timestamp c → getProcNameFallback now s sock = "") ∧
     (now - timestamp c < cacheTimeout →
        getProcNameFallback now s sock = ProcessInfo.String (info c))).
Proof.
  split; [|split; [|split; [|split]]].
  - intros now results nl. apply getAllProcsInodes_spec.
  - intros env nl. apply GetOpenSockets_spec.
  - intros env nl Ha. by apply GetOpenSockets_spec.
  - intros env nl. apply GetOpenSockets_spec.
  - intros now s sock nl c Hs Hc.
    rewrite (getProcNameFallback_netlink now s sock nl c Hs Hc).
    split; intros; case_decide; done || lia.
Qed.

(** C6.  While a diagnosis record is processed, the port cache is written
    under the record's port exactly when the resolved name is non-empty and
    differs from [unknownProcessName]: with an unusable name the fetcher is
    left as it was, with a usable one the (allocated) cache gains the entry
    under that port.  Hence no entry of the port cache ever carries an
    empty or sentinel name: this holds for a new fetcher and a new monitor
    and is kept by every refresh. *)
Theorem portCache_written_iff_named :
  (∀ p, cacheable p = true ↔
        ProcessInfo.Name p ≠ "" ∧ ProcessInfo.Name p ≠ unknownProcessName) ∧
  (∀ proto inodeMap m now sockets nl,
     cacheable (recordProc inodeMap m) = false →
     ∃ sockets',
       recvRecord proto inodeMap m now sockets nl = Some (sockets', nl)) ∧
  (∀ proto inodeMap m now sockets nl pc,
     cacheable (recordProc inodeMap m) = true →
     portCache nl = Some pc →
     ∃ sockets' nl',
       recvRecord proto inodeMap m now sockets nl = Some (sockets', nl') ∧
       portCache nl' =
         Some (<[GoInt.uint16 (be16_Int (IdiagSport (ID m))) :=
                   mkProcessCache (recordProc inodeMap m) now]> pc)) ∧
  portCacheNamed GetSocketFetcher ∧
  portCacheNamed (nlConn (NewProcessMonitor (2 * Second))) ∧
  (∀ env nl, portCacheNamed nl → portCacheNamed (GetOpenSockets env nl).2) ∧
  (∀ env pm,
     portCacheNamed (nlConn pm) →
     portCacheNamed (nlConn (RefreshProcesses env pm).2)).
Proof.
  split; [apply cacheable_spec|].
  split; [|split; [|split; [|split; [|split]]]].
  - intros proto inodeMap m now sockets nl Hc.
    rewrite recvRecord_spec. cbv zeta. rewrite Hc. by eexists.
  - intros proto inodeMap m now sockets nl pc Hc Hpc.
    rewrite recvRecord_spec. cbv zeta. rewrite Hc, Hpc. by do 2 eexists.
  - by intros port c.
  - by intros port c.
  - intros env nl. apply GetOpenSockets_spec.
  - intros env pm Hn. unfold RefreshProcesses.
    destruct (envProcs env) as [procs|]; [|done].
    pose proof (getAllProcsInodes_spec (envNow env) (scanResults procs) (nlConn pm))
      as (Hp & _).
    destruct (getAllProcsInodes _ _ _) as [[inodeMap|] nl1]; simpl in *;
      [|by eapply portCacheNamed_eq].
    pose proof (getOpenSockets_step env inodeMap nl1) as (_ & _ & Hn2 & _).
    destruct (getOpenSockets _ _ _) as [[?|?|] nl2]; simpl in *;
      apply Hn2; by eapply portCacheNamed_eq.
Qed.

Lemma recordProc_unmatched inodeMap m :
  inodeMap !! IDiagInode m = None → recordProc inodeMap m = ProcessInfo.mk 0 "".
Proof. unfold recordProc. by intros ->. Qed.





(** ** Remarks on the embedding *)

(** The source port is the big-endian value of its two bytes on either
    kind of host. *)
Lemma be16_Int_big_endian v :
  GoInt.uint16 (be16_Int v) = byteZ (at0 v) * 256 + byteZ (at1 v).
Proof.
  unfold be16_Int, be16_Swap, GoInt.uint16.
  destruct v as [a b]; simpl. destruct hostBigEndian.
  - destruct a, b; reflexivity.
  - destruct a, b; reflexivity.
Qed.

(** With an empty inode map no name is usable: enumeration files zero
    entries only, never writes the port cache and never panics. *)
Lemma recvBatch_no_inodes proto msgs sockets nl :
  (recvBatch proto ∅ msgs sockets nl).2 = nl ∧
  (recvBatch proto ∅ msgs sockets nl).1.1 ≠ BatchPanic.
Proof.
  revert sockets. induction msgs as [|[msg now] msgs IH]; intros sockets; simpl.
  - done.
  - case_decide; [done|].
    rewrite recvRecord_spec. cbv zeta.
    rewrite (recordProc_unmatched ∅ (Diag msg)) by apply lookup_empty.
    simpl. apply IH.
Qed.

Lemma sockdiagRecvFrom_no_inodes proto events sockets nl :
  (sockdiagRecvFrom proto ∅ events sockets nl).2 = nl ∧
  (sockdiagRecvFrom proto ∅ events sockets nl).1 ≠ Panic.
Proof.
  revert sockets. induction events as [|ev events IH]; intros sockets; simpl.
  - done.
  - destruct ev as [| | |msgs]; try done.
    pose proof (recvBatch_no_inodes proto msgs sockets nl) as [Hnl Hnp].
    destruct (recvBatch _ _ _ _ _) as [[[] sockets'] nl']; simpl in *;
      subst; first [done | apply IH].
Qed.

Lemma fileAll_no_inodes proto records sockets :
  map_Forall (λ _ p, p = ProcessInfo.zero) sockets →
  map_Forall (λ _ p, p = ProcessInfo.zero) (fileAll proto ∅ records sockets).
Proof.
  induction records as [|m records IH] using rev_ind; [done|].
  intros Hz. rewrite fileAll_snoc. apply map_Forall_insert_2; [|by auto].
  apply recordProc_unmatched, lookup_empty.
Qed.

Lemma recvAll_no_inodes fds sockets nl :
  (recvAll ∅ fds sockets nl).2 = nl ∧
  ∀ result, (recvAll ∅ fds sockets nl).1 = Ok result →
    map_Forall (λ _ p, p = ProcessInfo.zero) sockets →
    map_Forall (λ _ p, p = ProcessInfo.zero) result.
Proof.
  revert sockets. induction fds as [|[proto events] fds IH]; intros sockets; simpl.
  - split; [done|]. by intros result [= <-].
  - unfold sockdiagRecv.
    pose proof (sockdiagRecvFrom_no_inodes proto events ∅ nl) as [Hnl Hnp].
    pose proof (sockdiagRecvFrom_sockets proto ∅ events ∅ nl) as Hs.
    destruct (sockdiagRecvFrom _ _ _ _ _) as [[m|m|] nl']; simpl in *;
      subst; try done.
    destruct (IH (m ∪ sockets)) as [Hnl' Hres]. split; [done|].
    intros result Hok Hz. apply (Hres result Hok).
    apply map_Forall_union_2; [|done].
    rewrite (Hs m eq_refl). by apply fileAll_no_inodes, map_Forall_empty.
Qed.

(** The monitor's own [netlinkConn] has nil caches.  A refresh of such a
    monitor that finds a socket inode panics on the inode cache write; a
    refresh that completes leaves the caches nil and installs a map whose
    entries all carry the zero [ProcessInfo]. *)
Lemma RefreshProcesses_nil_cache_panics env pid name inode interval :
  envProcs env = Some [(pid, Some (name, [inode]))] →
  RefreshProcesses env (NewProcessMonitor interval) =
  (Panic, NewProcessMonitor interval).
Proof.
  intros Hp. unfold RefreshProcesses, getAllProcsInodes. by rewrite Hp.
Qed.

Lemma RefreshProcesses_nil_cache_unresolved env pm :
  inodeCache (nlConn pm) = None →
  nlConn (RefreshProcesses env pm).2 = nlConn pm ∧
  ((RefreshProcesses env pm).1 = Ok () →
   map_Forall (λ _ p, p = ProcessInfo.zero) (socketMap (RefreshProcesses env pm).2)).
Proof.
  intros Hnil. unfold RefreshProcesses.
  destruct (envProcs env) as [procs|]; [|done].
  pose proof (getAllProcsInodes_spec (envNow env) (scanResults procs) (nlConn pm))
    as (_ & _ & _ & Hn).
  destruct (Hn Hnil) as [Hnl Hmap].
  destruct (getAllProcsInodes _ _ _) as [[inodeMap|] nl1]; simpl in *; [|done].
  destruct Hmap as [?|[= ->]]; [done|]. subst nl1.
  unfold getOpenSockets.
  destruct (sendAll _ _) as [fds|]; [|done].
  destruct (recvAll_no_inodes fds ∅ (nlConn pm)) as [Hnl Hres].
  destruct (recvAll _ _ _ _) as [[m|m|] nl2]; simpl in *; subst; try done.
  split; [done|]. intros _. apply (Hres m eq_refl). apply map_Forall_empty.
Qed.

(** * Further properties *)

(** ** The sink *)

Lemma sumDataLen_Permutation l1 l2 : l1 ≡ₚ l2 → sumDataLen l1 = sumDataLen l2.
Proof.
  unfold sumDataLen. induction 1; simpl; lia.
Qed.

Lemma segsOf_Permutation conn dir l1 l2 :
  l1 ≡ₚ l2 → segsOf conn dir l1 ≡ₚ segsOf conn dir l2.
Proof. unfold segsOf. by intros ->. Qed.

(** X1.  The counters of a window do not depend on the order in which its
    segments were fetched: two interleavings of the same segments leave
    entries for the same connections with the same four counters. *)
Theorem fetch_order_irrelevant (segs segs' : list Segment.t) (conn : Connection.t) :
  segs ≡ₚ segs' →
  counters <$> (utilization (fetchAll segs NewSinker) !! conn) =
  counters <$> (utilization (fetchAll segs' NewSinker) !! conn).
Proof.
  intros Hp. rewrite !fetchAll_lookup. unfold windowEntry.
  assert (is_Some (firstOf conn segs) ↔ is_Some (firstOf conn segs')) as Hsome.
  { rewrite !firstOf_is_Some. by setoid_rewrite Hp. }
  assert (∀ dir, bytesOf conn dir segs = bytesOf conn dir segs') as Hb.
  { intros dir. unfold bytesOf.
    by apply sumDataLen_Permutation, segsOf_Permutation. }
  assert (∀ dir, packetsOf conn dir segs = packetsOf conn dir segs') as Hc.
  { intros dir. unfold packetsOf. f_equal.
    by apply Permutation_length, segsOf_Permutation. }
  destruct (firstOf conn segs) as [s0|], (firstOf conn segs') as [s0'|]; simpl.
  - unfold counters. simpl. by rewrite !Hb, !Hc.
  - by destruct (proj1 Hsome) as [? ?]; [eauto|].
  - by destruct (proj2 Hsome) as [? ?]; [eauto|].
  - done.
Qed.

(** X2.  In a window whose totals fit an [int] every counter of a drained
    entry is non-negative, and a direction without packets has no bytes. *)
Theorem counters_nonnegative (segs : list Segment.t) (conn : Connection.t)
    (ci : ConnectionInfo.t) :
  windowFits segs →
  utilization (fetchAll segs NewSinker) !! conn = Some ci →
  0 <= ConnectionInfo.UploadPackets ci ∧ 0 <= ConnectionInfo.UploadBytes ci ∧
  0 <= ConnectionInfo.DownloadPackets ci ∧ 0 <= ConnectionInfo.DownloadBytes ci ∧
  (ConnectionInfo.UploadPackets ci = 0 → ConnectionInfo.UploadBytes ci = 0) ∧
  (ConnectionInfo.DownloadPackets ci = 0 → ConnectionInfo.DownloadBytes ci = 0).
Proof.
  intros Hfits. rewrite fetchAll_lookup. unfold windowEntry.
  destruct (firstOf conn segs) as [s0|]; [|done]. intros [= <-]. simpl.
  destruct (windowFits_in_range conn DirectionUpload segs Hfits) as [Hub Hup].
  destruct (windowFits_in_range conn DirectionDownload segs Hfits) as [Hdb Hdp].
  rewrite !wrap_in_range by done.
  destruct Hfits as (Hpos & _ & _).
  destruct (segsOf_bounds conn DirectionUpload segs Hpos) as [? ?].
  destruct (segsOf_bounds conn DirectionDownload segs Hpos) as [? ?].
  assert (∀ dir, packetsOf conn dir segs = 0 → bytesOf conn dir segs = 0) as Hz.
  { intros dir. unfold packetsOf, bytesOf.
    destruct (segsOf conn dir segs); simpl; [done|lia]. }
  repeat split; try lia; by apply Hz.
Qed.

(** X3.  [Fetch] touches one key: every other connection keeps its entry,
    the map gains at most the segment's connection, and a segment whose
    direction is neither Upload nor Download adds an entry when there is
    none but no bytes and no packets. *)
Theorem Fetch_touches_one_key (seg : Segment.t) (c : Sinker) :
  (∀ conn, conn ≠ Segment.Connection seg →
           utilization (Fetch seg c) !! conn = utilization c !! conn) ∧
  dom (utilization (Fetch seg c)) = {[Segment.Connection seg]} ∪ dom (utilization c) ∧
  (Segment.Direction seg ≠ DirectionUpload →
   Segment.Direction seg ≠ DirectionDownload →
   utilization (Fetch seg c) !! Segment.Connection seg =
   Some (default (freshEntry seg) (utilization c !! Segment.Connection seg))).
Proof.
  split; [|split].
  - intros conn Hne. by apply Fetch_lookup_ne.
  - apply set_eq. intros conn.
    rewrite elem_of_union, elem_of_singleton, !elem_of_dom.
    destruct (decide (Segment.Connection seg = conn)) as [<-|Hne].
    + rewrite Fetch_lookup_eq. split; [by left|by eauto].
    + rewrite Fetch_lookup_ne by done. split; [by right|]. by intros [?|?].
  - intros Hu Hd. rewrite Fetch_lookup_eq. unfold bump, freshEntry.
    by rewrite !decide_False by done.
Qed.

(** ** The decoder on arbitrary layer lists *)

(** X4.  [parsePacket] returns nil exactly when the decoded layers contain
    neither a TCP nor a UDP layer, whatever else they contain. *)
Theorem parsePacket_nil_iff (c : PcapClient) (ph : pcapHandler)
    (decoded : list Layer) :
  parsePacket c ph decoded = None ↔ Forall (λ l, isL4 l = false) decoded.
Proof.
  rewrite <- parseVars_protocol. unfold parsePacket.
  repeat case_decide; split; try done; intros; congruence.
Qed.

(** X5.  On any list of layers the emitted segment is an Upload iff some
    IP layer of the list has a bound source address, and a Download
    otherwise; the segment is reported on the handler's device, and its
    local address is the source (Upload) or destination (Download) of the
    last IP layer, which need not be the layer that decided the direction. *)
Theorem parsePacket_direction (c : PcapClient) (ph : pcapHandler)
    (decoded : list Layer) (seg : Segment.t) :
  parsePacket c ph decoded = Some seg →
  Segment.Interface seg = device ph ∧
  (Segment.Direction seg = DirectionUpload ↔ Exists (boundSource c) decoded) ∧
  (Segment.Direction seg = DirectionDownload ↔ ¬ Exists (boundSource c) decoded) ∧
  (Segment.Direction seg = DirectionUpload →
     LocalSocket.IP (Connection.Local (Segment.Connection seg)) =
       (lastAddresses decoded).1) ∧
  (Segment.Direction seg = DirectionDownload →
     LocalSocket.IP (Connection.Local (Segment.Connection seg)) =
       (lastAddresses decoded).2).
Proof.
  unfold parsePacket.
  pose proof (parseVars_direction c decoded) as (Hdir & Hup & Haddr).
  cbv zeta in *. rewrite <- Haddr, <- Hup.
  destruct (decide (protocol _ = "")); [done|].
  repeat case_decide; intros [= <-]; simpl;
    unfold DirectionUpload, DirectionDownload in *;
    repeat split; try done; try congruence; intuition congruence.
Qed.

(** ** One iteration of the reader *)

Lemma decodeIP_cases dec etherPayload :
  let r := decodeIP dec etherPayload in
  r.1 = [] ∨
  (∃ v6 src dst, r.1 = [ipLayer v6 src dst]) ∨
  (∃ s4 d4 s6 d6,
     r.1 = [LayerIPv4 s4 d4; LayerIPv6 s6 d6] ∧
     decodeIPv4 dec etherPayload = Some (s4, d4, [])).
Proof.
  unfold decodeIP.
  destruct (decodeIPv4 dec etherPayload) as [[[s4 d4] pl4]|] eqn:H4; simpl.
  - case_bool_decide as Hlen.
    + assert (pl4 = []) as -> by (destruct pl4; [done|unfold len in Hlen; simpl in Hlen; lia]).
      destruct (decodeIPv6 dec etherPayload) as [[[s6 d6] pl6]|]; simpl.
      * right. right. by exists s4, d4, s6, d6.
      * right. left. by exists false, s4, d4.
    + right. left. by exists false, s4, d4.
  - destruct (decodeIPv6 dec etherPayload) as [[[s6 d6] pl6]|]; simpl.
    + right. left. by exists true, s6, d6.
    + by left.
Qed.

Lemma frameLayers_last dec pkt decoded :
  frameLayers dec pkt = Some decoded →
  ∃ front l, decoded = front ++ [l] ∧ isL4 l = true.
Proof.
  unfold frameLayers.
  destruct (decodeEthernet dec pkt) as [[ty etherPayload]|]; [|done].
  destruct (_ || _); [|done].
  destruct (decodeIP dec etherPayload) as [layers payload].
  destruct (_ || _); [done|].
  destruct (decodeTCP dec payload) as [[[[sp dp] contents] pl]|];
    [intros [= <-]; by eexists _, _|].
  destruct (decodeUDP dec payload) as [[[[sp dp] contents] pl]|]; [|done].
  intros [= <-]. by eexists _, _.
Qed.

(** X6.  The layers of a frame that reaches [parsePacket] are an IP layer
    followed by the transport layer, or, when IPv4 decoded with an empty
    payload and IPv6 decoded as well, both IP layers followed by the
    transport layer; a UDP layer is passed only when the TCP decoder
    rejected the same payload. *)
Theorem frameLayers_shape (dec : Decoders) (pkt : list Byte.byte)
    (decoded : list Layer) :
  frameLayers dec pkt = Some decoded →
  ∃ ty etherPayload (udp : bool) sp dp contents pl,
    decodeEthernet dec pkt = Some (ty, etherPayload) ∧
    (ty = EthernetTypeIPv4 ∨ ty = EthernetTypeIPv6) ∧
    (if udp
     then decodeTCP dec (decodeIP dec etherPayload).2 = None ∧
          decodeUDP dec (decodeIP dec etherPayload).2 = Some (sp, dp, contents, pl)
     else decodeTCP dec (decodeIP dec etherPayload).2 = Some (sp, dp, contents, pl)) ∧
    ((∃ v6 src dst,
        decoded = [ipLayer v6 src dst; l4Layer udp sp dp contents pl]) ∨
     (∃ s4 d4 s6 d6,
        decoded = [LayerIPv4 s4 d4; LayerIPv6 s6 d6; l4Layer udp sp dp contents pl] ∧
        decodeIPv4 dec etherPayload = Some (s4, d4, []))).
Proof.
  unfold frameLayers.
  destruct (decodeEthernet dec pkt) as [[ty etherPayload]|]; [|done].
  destruct (bool_decide (ty = EthernetTypeIPv4) || bool_decide (ty = EthernetTypeIPv6))
    eqn:Hty; [|done].
  apply orb_true_iff in Hty. rewrite !bool_decide_eq_true in Hty.
  pose proof (decodeIP_cases dec etherPayload) as Hcases. cbv zeta in Hcases.
  destruct (decodeIP dec etherPayload) as [layers payload] eqn:Hip. simpl in *.
  destruct (bool_decide (length layers = 0%nat) || bool_decide (len payload = 0))
    eqn:Hempty; [done|].
  apply orb_false_iff in Hempty as [Hne _]. rewrite bool_decide_eq_false in Hne.
  assert (∀ udp sp dp contents pl,
            (∃ v6 src dst,
               layers ++ [l4Layer udp sp dp contents pl] =
               [ipLayer v6 src dst; l4Layer udp sp dp contents pl]) ∨
            (∃ s4 d4 s6 d6,
               layers ++ [l4Layer udp sp dp contents pl] =
               [LayerIPv4 s4 d4; LayerIPv6 s6 d6; l4Layer udp sp dp contents pl] ∧
               decodeIPv4 dec etherPayload = Some (s4, d4, []))) as Hshape.
  { intros. destruct Hcases as [->|[(v6 & src & dst & ->)|(s4 & d4 & s6 & d6 & -> & H4)]].
    - done.
    - left. by exists v6, src, dst.
    - right. by exists s4, d4, s6, d6. }
  destruct (decodeTCP dec payload) as [[[[sp dp] contents] pl]|] eqn:Htcp.
  - intros [= <-]. exists ty, etherPayload, false, sp, dp, contents, pl.
    rewrite Hip. split; [done|]. split; [done|]. split; [done|].
    apply (Hshape false).
  - destruct (decodeUDP dec payload) as [[[[sp dp] contents] pl]|] eqn:Hudp; [|done].
    intros [= <-]. exists ty, etherPayload, true, sp, dp, contents, pl.
    rewrite Hip. split; [done|]. split; [done|]. split; [done|].
    apply (Hshape true).
Qed.

(** X7.  One iteration of the reader changes the sink by at most one
    [Fetch]: a failed read, and a frame that does not get through the
    Ethernet, IP and transport decoders, leave the sink as it is; every
    other frame is fetched exactly once, as a segment on the handler's
    device ([parsePacket] never drops it). *)
Theorem listenFrame_fetches_once (dec : Decoders) (c : PcapClient)
    (ph : pcapHandler) :
  listenFrame dec c ph None = ClientSinker c ∧
  (∀ pkt, frameLayers dec pkt = None →
          listenFrame dec c ph (Some pkt) = ClientSinker c) ∧
  (∀ pkt decoded, frameLayers dec pkt = Some decoded →
     ∃ seg, parsePacket c ph decoded = Some seg ∧
            Segment.Interface seg = device ph ∧
            listenFrame dec c ph (Some pkt) = Fetch seg (ClientSinker c)).
Proof.
  split; [done|]. split.
  - intros pkt Hnone. unfold listenFrame. by rewrite Hnone.
  - intros pkt decoded Hsome. unfold listenFrame. rewrite Hsome.
    destruct (parsePacket c ph decoded) as [seg|] eqn:Hseg.
    + exists seg. split; [done|]. split; [|done].
      unfold parsePacket in Hseg.
      repeat case_decide; by simplify_eq.
    + exfalso. unfold parsePacket in Hseg.
      destruct (decide (protocol _ = "")) as [Hproto|];
        [|by repeat case_decide].
      apply parseVars_protocol in Hproto.
      destruct (frameLayers_last dec pkt decoded Hsome) as (front & l & -> & Hl).
      apply Forall_app in Hproto as [_ Hlast].
      rewrite Forall_singleton in Hlast. by rewrite Hl in Hlast.
Qed.

(** ** Device selection and set-up *)

Lemma prefix_append pre s :
  String.prefix pre s = true ↔ ∃ rest, s = pre +:+ rest.
Proof.
  revert s. induction pre as [|a pre IH]; intros s.
  - split; [intros _; by exists s|intros _; by destruct s].
  - destruct s as [|b s]; simpl;
      [split; [done|intros [rest Hrest];
                    change ("" = String a (pre +:+ rest)) in Hrest; done]|].
    destruct (Ascii.ascii_dec a b) as [->|Hne].
    + rewrite IH. split; intros [rest Hrest]; exists rest.
      * by rewrite Hrest.
      * change (String b s = String b (pre +:+ rest)) in Hrest. congruence.
    + split; [done|]. intros [rest Hrest].
      change (String b s = String a (pre +:+ rest)) in Hrest. congruence.
Qed.

Lemma selectDevices_elem_of prefix allowAll all dev :
  dev ∈ selectDevices prefix allowAll all ↔
  dev ∈ all ∧ (allowAll = true ∨ hasAnyPrefix prefix (Name dev) = true).
Proof.
  induction all as [|d all IH]; simpl.
  - rewrite elem_of_nil. tauto.
  - destruct allowAll; simpl; [rewrite !elem_of_cons, IH; tauto|].
    destruct (hasAnyPrefix prefix (Name d)) eqn:Hd; rewrite ?elem_of_cons, IH.
    + split; [intros [->|[? ?]]; by auto|tauto].
    + split; [tauto|]. intros [[->|Hin] [?|Hp]]; try done; [congruence|tauto].
Qed.

(** X8.  [listPrefixDevices] keeps the devices in the order of the
    capture library and never twice: with [allowAll] all of them, otherwise
    exactly those whose name starts with one of the prefixes (so none for
    an empty prefix list, and all when the empty string is a prefix); it
    fails only when the device list cannot be read. *)
Theorem listPrefixDevices_selects (env : PcapEnv) (prefix : list string)
    (allowAll : bool) :
  (listPrefixDevices env prefix allowAll = None ↔ FindAllDevs env = None) ∧
  (∀ all, FindAllDevs env = Some all →
     ∃ devs,
       listPrefixDevices env prefix allowAll = Some devs ∧
       sublist devs all ∧
       (allowAll = true → devs = all) ∧
       (∀ dev, dev ∈ devs ↔
          dev ∈ all ∧
          (allowAll = true ∨
           ∃ pre rest, pre ∈ prefix ∧ Name dev = pre +:+ rest)) ∧
       (allowAll = false → prefix = [] → devs = []) ∧
       ("" ∈ prefix → devs = all)).
Proof.
  unfold listPrefixDevices. split; [by destruct (FindAllDevs env)|].
  intros all ->. eexists. split; [done|].
  assert (∀ name, hasAnyPrefix prefix name = true ↔
                  ∃ pre rest, pre ∈ prefix ∧ name = pre +:+ rest) as Hany.
  { intros name. unfold hasAnyPrefix. rewrite existsb_exists.
    split.
    - intros (pre & Hin%list_elem_of_In & (rest & ->)%prefix_append). by eauto.
    - intros (pre & rest & Hin & ->). exists pre.
      split; [by apply list_elem_of_In|]. apply prefix_append. by eauto. }
  split; [|split; [|split; [|split]]].
  - induction all as [|d all IH]; simpl; [done|].
    destruct allowAll; [by constructor|].
    destruct (hasAnyPrefix prefix (Name d)); by constructor.
  - intros ->. induction all as [|d all IH]; simpl; [done|]. by rewrite IH.
  - intros dev. by rewrite selectDevices_elem_of, Hany.
  - intros -> ->. induction all as [|d all IH]; simpl; done.
  - intros Hempty. induction all as [|d all IH]; simpl; [done|].
    rewrite IH. destruct allowAll; [done|].
    assert (hasAnyPrefix prefix (Name d) = true) as ->; [|done].
    apply Hany. by exists "", (Name d).
Qed.

Lemma addDevices_cons env dev devs c :
  addDevices env (dev :: devs) c =
  match NewTPacket env (Name dev) with
  | None => (false, c)
  | Some h =>
      if filterFails env (bpfFilter c) h then (false, c)
      else addDevices env devs (withDevice c dev h)
  end.
Proof. reflexivity. Qed.

Lemma deviceFails_cases env filter dev :
  deviceFails env filter dev ↔
  match NewTPacket env (Name dev) with
  | None => True
  | Some h => filterFails env filter h = true
  end.
Proof.
  unfold deviceFails, filterFails.
  destruct (NewTPacket env (Name dev)) as [h|]; [|by intuition].
  rewrite andb_true_iff, !negb_true_iff, bool_decide_eq_false.
  split.
  - intros [?|(Hf & h' & [= <-] & Hb)]; [done|by auto].
  - intros [Hf Hb]. right. by eauto.
Qed.


Lemma addDevices_false_iff env devs c :
  (addDevices env devs c).1 = false ↔
  Exists (deviceFails env (bpfFilter c)) devs.
Proof.
  revert c. induction devs as [|dev devs IH]; intros c.
  - rewrite Exists_nil. by simpl.
  - rewrite addDevices_cons, Exists_cons, deviceFails_cases.
    destruct (NewTPacket env (Name dev)) as [h|]; [|by intuition].
    destruct (filterFails env (bpfFilter c) h) eqn:Hf; [by intuition|].
    rewrite (IH (withDevice c dev h)). simpl. intuition congruence.
Qed.

Lemma addDevices_handlers env devs c :
  (addDevices env devs c).1 = true →
  handlers (addDevices env devs c).2 = handlers c ++ omap (handlerOf env) devs ∧
  length (omap (handlerOf env) devs) = length devs.
Proof.
  revert c. induction devs as [|dev devs IH]; intros c.
  - intros _. simpl. by rewrite app_nil_r.
  - rewrite addDevices_cons.
    change (omap (handlerOf env) (dev :: devs)) with
      (match handlerOf env dev with
       | Some ph => ph :: omap (handlerOf env) devs
       | None => omap (handlerOf env) devs
       end).
    destruct (NewTPacket env (Name dev)) as [h|] eqn:Hh; [|done].
    assert (handlerOf env dev = Some (mkPcapHandler (Name dev) h)) as ->
      by (unfold handlerOf; by rewrite Hh).
    destruct (filterFails env (bpfFilter c) h); [done|].
    intros Hok. destruct (IH (withDevice c dev h) Hok) as [-> Hlen].
    simpl. rewrite <- app_assoc. split; [done|]. by f_equal.
Qed.

(** X9.  [NewPcapClient] fails exactly when the device list cannot be
    read, no device is selected, or some selected device fails (its packet
    socket cannot be opened, or the non-empty filter cannot be installed on
    it); with an empty filter no filter is installed at all. *)
Theorem NewPcapClient_fails_iff (env : PcapEnv) (resolve : string → string)
    (opt : Options) (pm : option ProcessMonitor) :
  NewPcapClient env resolve opt pm = None ↔
  FindAllDevs env = None ∨
  ∃ all, FindAllDevs env = Some all ∧
    (selectDevices (DevicesPrefix opt) (AllDevices opt) all = [] ∨
     Exists (deviceFails env (BPFFilter opt))
       (selectDevices (DevicesPrefix opt) (AllDevices opt) all)).
Proof.
  unfold NewPcapClient, getAvailableDevices, listPrefixDevices. simpl.
  destruct (FindAllDevs env) as [all|]; [|split; [by left|done]].
  set (devs := selectDevices _ _ all).
  set (c0 := mkPcapClient _ _ _ _ _ _ _ _ _).
  pose proof (addDevices_false_iff env devs c0) as Hfail.
  pose proof (addDevices_handlers env devs c0) as Hok.
  destruct (addDevices env devs c0) as [[] c'] eqn:Hadd; simpl in *.
  - destruct (Hok eq_refl) as [Hh Hlen].
    assert (length (handlers c') = length devs) as Hn
      by (rewrite Hh; subst c0; exact Hlen).
    case_bool_decide as Hzero.
    + split; [|done]. intros _. right. exists all. split; [done|]. left.
      rewrite Hn in Hzero. by apply length_zero_iff_nil.
    + split; [done|]. intros [?|(all' & [= <-] & [Hnil|Hex])]; [done| |].
      * exfalso. apply Hzero. rewrite Hn. by apply length_zero_iff_nil.
      * apply Hfail in Hex. done.
  - split; [|done]. intros _. right. exists all. split; [done|]. right.
    by apply Hfail.
Qed.


End Host.

(** * Worked scenarios

    The scenarios of the specification, run on the embedding with
    [dottedQuad] for [net.IP.String], a little-endian host and "<UNKNOWN>"
    as the sentinel name. *)

Lemma sink_window_totals_witness :
  ∃ ci,
    (GetUtilization (fetchAll window3 (GetUtilization NewSinker).2)).1 !! connCurl
      = Some ci ∧
    ConnectionInfo.UploadBytes ci = 150 ∧
    ConnectionInfo.UploadPackets ci = 3 ∧
    ConnectionInfo.DownloadBytes ci = 0 ∧
    ConnectionInfo.DownloadPackets ci = 0.
Proof.
  assert (windowFits window3) as Hfits.
  { split; [|split]; [repeat constructor; vm_compute; congruence
                     | vm_compute; congruence | vm_compute; congruence]. }
  destruct (sink_window_totals NewSinker window3 connCurl)
    as (Hdom & _ & Hval & _).
  destruct (proj2 Hdom) as [ci Hci].
  { exists seg50. split; [by left|done]. }
  exists ci. split; [done|].
  destruct (Hval Hfits ci Hci) as (-> & -> & -> & ->). by vm_compute.
Defined.

Lemma Fetch_keeps_first_insertion_witness :
  ∃ ci,
    utilization (fetchAll [seg50; segLate] NewSinker) !! connCurl = Some ci ∧
    ConnectionInfo.Interface ci = "eth0" ∧
    ConnectionInfo.Process ci = Some curl.
Proof.
  destruct Fetch_keeps_first_insertion as (_ & _ & Hwindow).
  apply (Hwindow [seg50; segLate] connCurl seg50). by vm_compute.
Defined.

(** The upload scenario with DNS resolution enabled: the emitted segment is
    an Upload whose remote address is the resolved name, not the
    destination address of the packet. *)
Lemma parsePacket_remote_is_resolved :
  ∃ c ph seg,
    NewPcapClient dottedQuad twoDevices lookupOne optsAll None
      = Some c ∧
    parsePacket dottedQuad c ph curlFrame = Some seg ∧
    Segment.Direction seg = DirectionUpload ∧
    Connection.Local (Segment.Connection seg) =
      LocalSocket.mk (dottedQuad ip_10_0_0_2) 50000 ProtoTCP ∧
    Connection.Remote (Segment.Connection seg) =
      RemoteSocket.mk "one.one.one.one" 443 ∧
    Connection.Remote (Segment.Connection seg) ≠
      RemoteSocket.mk (dottedQuad ip_1_1_1_1) 443.
Proof.
  eexists _, (mkPcapHandler "eth0" 3), _.
  split; [by vm_compute|]. split; [by vm_compute|].
  repeat split; by vm_compute.
Qed.

(** The cache expiry scenario: the entry for port 5555, 10 seconds old, is
    still in the port cache after a refresh that completed without error. *)
Lemma portCache_entry_survives_refresh :
  (GetOpenSockets dottedQuad false "<UNKNOWN>" quietEnv fooFetcher).1 = Ok ∅ ∧
  ∃ c,
    goGet (portCache (GetOpenSockets dottedQuad false "<UNKNOWN>" quietEnv fooFetcher).2)
      5555 = Some c ∧
    cacheTimeout <= envNow quietEnv - timestamp c.
Proof.
  split; [by vm_compute|].
  exists (mkProcessCache (ProcessInfo.mk 1 "foo") 0).
  split; [by vm_compute|]. by vm_compute.
Qed.

(** A frame read on the handle of "lo" whose source address is bound to
    "eth0" only is an Upload. *)
Lemma upload_on_other_interface :
  ∃ c ph seg,
    NewPcapClient dottedQuad twoDevices id optsAll None = Some c ∧
    ph ∈ handlers c ∧ device ph = "lo" ∧
    (dottedQuad ip_10_0_0_2 ∉
       deviceIPs dottedQuad [mkInterface "lo" [ip_127_0_0_1]]) ∧
    parsePacket dottedQuad c ph curlFrame = Some seg ∧
    Segment.Direction seg = DirectionUpload.
Proof.
  eexists _, (mkPcapHandler "lo" 4), _.
  split; [by vm_compute|].
  split; [apply elem_of_cons; right; apply elem_of_cons; by left|].
  split; [done|]. split; [|split; by vm_compute].
  intros [Heq|Hin%elem_of_nil]%elem_of_cons; [by vm_compute in Heq|done].
Qed.

(** Both handles of the client give an Upload for the frame whose source
    address is bound to "eth0"; so does the list with two IP layers, whose
    first layer has that source. *)
Lemma direction_uses_all_devices_witness :
  ∃ c,
    NewPcapClient dottedQuad twoDevices id optsAll None = Some c ∧
    map device (handlers c) = ["eth0"; "lo"] ∧
    (∀ ph, ∃ seg,
       parsePacket dottedQuad c ph curlFrame = Some seg ∧
       Segment.Direction seg = DirectionUpload) ∧
    (∀ ph seg,
       parsePacket dottedQuad c ph twoIPLayers = Some seg →
       Segment.Direction seg = DirectionUpload).
Proof.
  destruct (NewPcapClient dottedQuad twoDevices id optsAll None) as [c|] eqn:Hc;
    [|by vm_compute in Hc].
  exists c. split; [done|].
  destruct (direction_uses_all_devices dottedQuad twoDevices id optsAll None c Hc)
    as (all & Hall & Hhandlers & _ & Hany & Hdir).
  injection Hall as <-. split; [exact Hhandlers|]. split.
  - intros ph.
    destruct (Hdir ph false false ip_10_0_0_2 ip_1_1_1_1 50000 443
                (replicate 20 Byte.x00) (replicate 100 Byte.x00))
      as (seg & Hseg & Hup).
    exists seg. split; [exact Hseg|]. apply Hup.
    apply elem_of_cons. by left.
  - intros ph seg Hseg. apply (Hany ph twoIPLayers seg Hseg).
    apply Exists_cons. left. exists ip_10_0_0_2. split; [done|].
    apply elem_of_cons. by left.
Defined.

(** The DNS scenario with resolution enabled: over UDP the remote address
    of the segment stays the raw destination address; over TCP, here on the
    list with two IP layers, it is the name the lookup returns. *)
Lemma parsePacket_dns_witness :
  ∃ c segUDP segTCP,
    NewPcapClient dottedQuad twoDevices lookupOne optsAll None = Some c ∧
    parsePacket dottedQuad c (mkPcapHandler "eth0" 3) curlFrameUDP = Some segUDP ∧
    RemoteSocket.IP (Connection.Remote (Segment.Connection segUDP)) = "1.1.1.1" ∧
    parsePacket dottedQuad c (mkPcapHandler "eth0" 3) twoIPLayers = Some segTCP ∧
    RemoteSocket.IP (Connection.Remote (Segment.Connection segTCP)) =
      "one.one.one.one".
Proof.
  destruct (NewPcapClient dottedQuad twoDevices lookupOne optsAll None)
    as [c|] eqn:Hc; [|by vm_compute in Hc].
  destruct (parsePacket dottedQuad c (mkPcapHandler "eth0" 3) curlFrameUDP)
    as [segUDP|] eqn:Hudp; [|injection Hc as <-; by vm_compute in Hudp].
  destruct (parsePacket dottedQuad c (mkPcapHandler "eth0" 3) twoIPLayers)
    as [segTCP|] eqn:Htcp; [|injection Hc as <-; by vm_compute in Htcp].
  destruct (parsePacket_dns dottedQuad c (mkPcapHandler "eth0" 3)
              curlFrameUDP segUDP Hudp) as (Hproto & _ & _ & Hraw & _).
  destruct (parsePacket_dns dottedQuad c (mkPcapHandler "eth0" 3)
              twoIPLayers segTCP Htcp) as (Hproto' & _ & Hname & _ & _).
  exists c, segUDP, segTCP. split; [done|]. split; [done|].
  injection Hc as <-. split; [|split; [done|]].
  - rewrite Hraw by (left; by rewrite Hproto).
    vm_compute in Hudp. injection Hudp as <-. by vm_compute.
  - rewrite Hname by (split; [by rewrite Hproto'|done]).
    vm_compute in Htcp. injection Htcp as <-. by vm_compute.
Defined.

(** The upload scenario, DNS resolution disabled: one segment with
    direction Upload, the connection of the packet, the process the monitor
    knows for the local socket, and 120 bytes. *)
Lemma parsePacket_segment_witness :
  ∃ c seg,
    NewPcapClient dottedQuad twoDevices lookupOne
      (mkOptions "tcp or udp" [] true true) (Some curlMonitor) = Some c ∧
    parsePacket dottedQuad c (mkPcapHandler "eth0" 3) curlFrame = Some seg ∧
    seg = Segment.mk "eth0" 120 connCurl DirectionUpload (Some curl).
Proof.
  destruct (NewPcapClient dottedQuad twoDevices lookupOne
              (mkOptions "tcp or udp" [] true true) (Some curlMonitor))
    as [c|] eqn:Hc; [|by vm_compute in Hc].
  destruct (parsePacket_segment dottedQuad c (mkPcapHandler "eth0" 3) false false
              ip_10_0_0_2 ip_1_1_1_1 50000 443
              (replicate 20 Byte.x00) (replicate 100 Byte.x00))
    as (seg & Hseg & Hup & _ & Hlen & Hconn & _).
  exists c, seg. split; [done|]. split; [exact Hseg|].
  injection Hc as <-.
  vm_compute in Hseg. by injection Hseg as <-.
Defined.

(** The cache expiry scenario on the read side: "foo" cached for port 5555
    at time 0 is answered at 4.9 s and no longer at 5.1 s. *)
Lemma cache_expiry_witness :
  getProcNameFallback 4900000000 fooStats (LocalSocket.mk "10.0.0.2" 5555 ProtoTCP)
    = "<1>:foo" ∧
  getProcNameFallback 5100000000 fooStats (LocalSocket.mk "10.0.0.2" 5555 ProtoTCP)
    = "".
Proof.
  destruct (cache_expiry dottedQuad false "<UNKNOWN>") as (_ & _ & _ & _ & Hread).
  split.
  - apply (Hread 4900000000 fooStats (LocalSocket.mk "10.0.0.2" 5555 ProtoTCP)
             fooFetcher (mkProcessCache (ProcessInfo.mk 1 "foo") 0));
      by vm_compute.
  - apply (Hread 5100000000 fooStats (LocalSocket.mk "10.0.0.2" 5555 ProtoTCP)
             fooFetcher (mkProcessCache (ProcessInfo.mk 1 "foo") 0));
      by vm_compute.
Defined.

(** The listener record with inode 777 known as nginx: the port cache of a
    new fetcher gains port 8080; with the inode unknown it stays empty. *)
Lemma portCache_written_iff_named_witness :
  (∃ sockets nl,
     recvRecord dottedQuad false "<UNKNOWN>" IPPROTO_TCP {[777 := nginx]}
       listenerMsg 5 ∅ GetSocketFetcher = Some (sockets, nl) ∧
     portCache nl = Some {[8080 := mkProcessCache nginx 5]}) ∧
  (∃ sockets,
     recvRecord dottedQuad false "<UNKNOWN>" IPPROTO_TCP ∅
       listenerMsg 5 ∅ GetSocketFetcher = Some (sockets, GetSocketFetcher)).
Proof.
  destruct (portCache_written_iff_named dottedQuad false "<UNKNOWN>")
    as (_ & Hskip & Hwrite & _).
  split.
  - destruct (Hwrite IPPROTO_TCP {[777 := nginx]} listenerMsg 5 ∅
                GetSocketFetcher ∅) as (sockets & nl & Hrec & Hpc);
      [by vm_compute | done |].
    exists sockets, nl. split; [exact Hrec|]. rewrite Hpc. by vm_compute.
  - apply Hskip. by vm_compute.
Defined.


(** Two interleavings of an upload and a download segment: the counters
    agree (1 and 1 packets, 50 and 70 bytes). *)
Lemma fetch_order_irrelevant_witness :
  counters <$> (utilization (fetchAll [seg50; segLate] NewSinker) !! connCurl) =
  counters <$> (utilization (fetchAll [segLate; seg50] NewSinker) !! connCurl) ∧
  counters <$> (utilization (fetchAll [seg50; segLate] NewSinker) !! connCurl) =
  Some (1, 1, 50, 70).
Proof.
  split; [|by vm_compute].
  apply (fetch_order_irrelevant [seg50; segLate] [segLate; seg50] connCurl).
  apply perm_swap.
Defined.

Lemma counters_nonnegative_witness :
  0 <= 3 ∧ 0 <= 150 ∧ 0 <= 0 ∧ 0 <= 0 ∧ (3 = 0 → 150 = 0) ∧ (0 = 0 → 0 = 0).
Proof.
  apply (counters_nonnegative window3 connCurl
           (ConnectionInfo.mk "eth0" 3 0 150 0 (Some curl))).
  - split; [|split]; [repeat constructor; vm_compute; congruence
                     | vm_compute; congruence | vm_compute; congruence].
  - by vm_compute.
Defined.

(** With 10.0.0.2 bound, the list with two IP layers is an Upload whose
    local address is 192.168.1.9, an address that is not bound. *)
Lemma parsePacket_direction_witness :
  ∃ c seg,
    NewPcapClient dottedQuad twoDevices id optsAll None = Some c ∧
    parsePacket dottedQuad c (mkPcapHandler "eth0" 3) twoIPLayers = Some seg ∧
    Segment.Direction seg = DirectionUpload ∧
    LocalSocket.IP (Connection.Local (Segment.Connection seg)) = "192.168.1.9" ∧
    bound c "192.168.1.9" = false.
Proof.
  destruct (NewPcapClient dottedQuad twoDevices id optsAll None) as [c|] eqn:Hc;
    [|by vm_compute in Hc].
  destruct (parsePacket dottedQuad c (mkPcapHandler "eth0" 3) twoIPLayers)
    as [seg|] eqn:Hseg; [|injection Hc as <-; by vm_compute in Hseg].
  destruct (parsePacket_direction dottedQuad c (mkPcapHandler "eth0" 3)
              twoIPLayers seg Hseg) as (_ & Hup & _ & Hlocal & _).
  assert (Segment.Direction seg = DirectionUpload) as Hdir.
  { apply Hup. apply Exists_cons. left. exists ip_10_0_0_2.
    split; [done|]. injection Hc as <-. by vm_compute. }
  exists c, seg. split; [done|]. split; [done|]. split; [done|].
  split; [by rewrite (Hlocal Hdir)|]. injection Hc as <-. by vm_compute.
Defined.

(** A plain frame yields an IPv4 layer followed by a TCP layer. *)
Lemma frameLayers_shape_witness :
  ∃ decoded,
    frameLayers plainDecoders plainFrame = Some decoded ∧
    ∃ (udp : bool) sp dp contents pl v6 src dst,
      decoded = [ipLayer v6 src dst; l4Layer udp sp dp contents pl].
Proof.
  destruct (frameLayers plainDecoders plainFrame) as [decoded|] eqn:Hd;
    [|by vm_compute in Hd].
  exists decoded. split; [done|].
  destruct (frameLayers_shape plainDecoders plainFrame decoded Hd)
    as (ty & ep & udp & sp & dp & ct & pl & Heth & _ & _ & Hshape).
  exists udp, sp, dp, ct, pl.
  destruct Hshape as [Hshape|(s4 & d4 & s6 & d6 & _ & H4)]; [exact Hshape|].
  injection Heth as <- <-. by vm_compute in H4.
Defined.

(** With the default prefixes and a capture library that reports only
    "wlan0" and "docker0", no device is selected and the client is not
    built. *)
Lemma NewPcapClient_fails_iff_witness :
  NewPcapClient dottedQuad
    (mkPcapEnv (Some [mkInterface "wlan0" []; mkInterface "docker0" []])
       (λ _, Some 3) (λ _ _, true))
    id (mkOptions "tcp or udp" ["en"; "lo"; "eth"; "em"; "bond"] false false)
    None = None.
Proof.
  apply (proj2 (NewPcapClient_fails_iff dottedQuad _ _ _ _)).
  right. exists [mkInterface "wlan0" []; mkInterface "docker0" []].
  split; [done|]. by left.
Defined.

